(** * cdutil.vertical: vertical interpolation onto target levels

    A shallow embedding of [linearInterpolation] and
    [logLinearInterpolation] of [cdutil/vertical.py].

    The two Python functions work on [MV2] masked arrays whose first axis
    is the vertical one.  An array is modelled as the list of its level
    slices, a slice as the list of its cells (the remaining dimensions
    flattened), and a cell as [option F]: [None] is a masked (missing)
    cell, [Some x] a valid cell holding the number [x].  Library calls
    that can raise (broadcasting, indexing, axis assignment) return a
    [result]; the process-wide auto-bounds flag of [cdms2] is threaded as
    explicit state.

    The operations of [MV2], [numpy.ma] and [cdms2] are library code; they
    are modelled after their documented behaviour: a binary operation
    masks the cells where an operand is masked, [divide] and [log] also
    mask the cells outside their domain or with a result that is not
    finite, [where] masks the cells where the condition is masked, and
    a variable refuses an axis of the wrong length.

    The numbers are a parameter of the program ([Num]).  Two instances
    are given: IEEE 754 doubles ([F64]), which is what numpy computes
    with, and exact real numbers ([Real]), which give the formulas their
    mathematical value.  The progress bar, the reordering of the axes,
    the units and the attributes are not modelled. *)

From Stdlib Require Import ZArith Bool Lia Reals Lra.
From Stdlib Require Import Floats.SpecFloat.
From stdpp Require Import base option list.

Set Default Proof Using "Type".

(** ** Exceptions *)

Inductive error :=
  | ValueError   (* numpy: operands could not be broadcast together *)
  | IndexError   (* index out of bounds *)
  | TypeError    (* len() of a number *)
  | CDMSError.   (* cdms2: axis construction or axis length mismatch *)

Inductive result (A : Type) :=
  | Ok (a : A)
  | Raise (e : error).
Arguments Ok {A} a.
Arguments Raise {A} e.

#[global] Instance result_ret : MRet result := @Ok.
#[global] Instance result_bind : MBind result := λ A B f m,
  match m with Ok a => f a | Raise e => Raise e end.

Definition raises {A} (r : result A) : Prop := ∃ e, r = Raise e.

(** ** Numbers

    The arithmetic of the array elements.  [fge], [fle], [feq] and [flt]
    are numpy's [>=], [<=], [==] and [<] on two numbers; [isfinite] and
    [div_domain] are the two tests by which [numpy.ma] masks a quotient;
    [astype_float32] is the cast to single precision. *)

Class Num (F : Type) := {
  fadd : F → F → F;
  fsub : F → F → F;
  fmul : F → F → F;
  fdiv : F → F → F;
  fge : F → F → bool;
  fle : F → F → bool;
  feq : F → F → bool;
  flt : F → F → bool;
  zero : F;
  one : F;
  neg_one : F;
  isfinite : F → bool;
  div_domain : F → F → bool;
  astype_float32 : F → F
}.

(** [numpy.log] with the domain test of [numpy.ma.log] (argument [<= 0]). *)
Class Log (F : Type) := {
  flog : F → F;
  log_domain : F → bool
}.

(** ** Masked arrays *)

Section Arrays.
Context {F : Type} `{Num F}.

Local Abbreviation cell := (option F) (only parsing).
Local Abbreviation row := (list (option F)) (only parsing).
Local Abbreviation array := (list (list (option F))) (only parsing).

(** numpy broadcasting of one-dimensional shapes. *)
Definition broadcast_shape (n m : nat) : result nat :=
  if decide (n = m) then Ok n
  else if decide (n = 1) then Ok m
  else if decide (m = 1) then Ok n
  else Raise ValueError.

Definition broadcast_to {A} (n : nat) (l : list A) : result (list A) :=
  if decide (length l = n) then Ok l
  else match l with
       | [x] => Ok (replicate n x)
       | _ => Raise ValueError
       end.

(** A binary [numpy.ma] operation: the result is masked where an operand
    is masked, or where [f] itself declines (domained operations). *)
Definition ma_cell2 {A B C} (f : A → B → option C)
    (a : option A) (b : option B) : option C :=
  match a, b with
  | Some x, Some y => f x y
  | _, _ => None
  end.

Definition ma_binary {A B C} (f : A → B → option C)
    (x : list (option A)) (y : list (option B)) : result (list (option C)) :=
  n ← broadcast_shape (length x) (length y);
  x' ← broadcast_to n x;
  y' ← broadcast_to n y;
  Ok (zip_with (ma_cell2 f) x' y').

Definition ma_add : row → row → result row :=
  ma_binary (λ a b, Some (fadd a b)).
Definition ma_subtract : row → row → result row :=
  ma_binary (λ a b, Some (fsub a b)).
Definition ma_multiply : row → row → result row :=
  ma_binary (λ a b, Some (fmul a b)).

(** [numpy.ma.divide] also masks a quotient that is not finite or whose
    divisor is negligible against the dividend. *)
Definition divide_cell (a b : F) : option F :=
  let r := fdiv a b in
  if negb (isfinite r) || div_domain a b then None else Some r.
Definition ma_divide : row → row → result row := ma_binary divide_cell.

Definition ma_logical_and :
    list (option bool) → list (option bool) → result (list (option bool)) :=
  ma_binary (λ a b, Some (a && b)).

(** Comparison of a slice with a scalar. *)
Definition ma_greater_equal (x : row) (lev : F) : list (option bool) :=
  fmap (M:=option) (λ a, fge a lev) <$> x.
Definition ma_less_equal (x : row) (lev : F) : list (option bool) :=
  fmap (M:=option) (λ a, fle a lev) <$> x.
Definition ma_equal (x : row) (v : F) : list (option bool) :=
  fmap (M:=option) (λ a, feq a v) <$> x.

(** [s * x] for a scalar [s]. *)
Definition ma_scale (s : F) (x : row) : row :=
  fmap (M:=option) (fmul s) <$> x.

(** [numpy.ma.where(c, x, y)]: a masked condition gives a masked cell. *)
Definition where_cell {A} (c : option bool) (x y : option A) : option A :=
  match c with
  | None => None
  | Some true => x
  | Some false => y
  end.

Definition ma_where {A} (c : list (option bool)) (x y : list (option A))
    : result (list (option A)) :=
  n1 ← broadcast_shape (length c) (length x);
  n ← broadcast_shape n1 (length y);
  c' ← broadcast_to n c;
  x' ← broadcast_to n x;
  y' ← broadcast_to n y;
  Ok (zip_with (λ c xy, where_cell c xy.1 xy.2) c' (zip x' y')).

(** [MV2.where(c, x, y)] for a condition [c] that is itself a variable:
    the result is given the axes of [c], and so must have its shape. *)
Definition MV2_where {A} (c : list (option bool)) (x y : list (option A))
    : result (list (option A)) :=
  r ← ma_where c x y;
  if decide (length r = length c) then Ok r else Raise CDMSError.

(** [MV2.masked_equal(x, v)]. *)
Definition masked_equal_cell (v : F) (a : cell) : cell :=
  match a with
  | Some x => if feq x v then None else Some x
  | None => None
  end.
Definition ma_masked_equal (x : row) (v : F) : row :=
  masked_equal_cell v <$> x.

(** [MV2.masked_where(c, a)] for a plain array [a] of the shape of [c]:
    a masked condition counts as true. *)
Definition masked_where_cell (c : option bool) (a : F) : cell :=
  match c with
  | Some false => Some a
  | _ => None
  end.
Definition ma_masked_where (c : list (option bool)) (a : list F) : row :=
  zip_with masked_where_cell c a.

(** [x[i]] on the first axis. *)
Definition getitem (x : array) (i : nat) : result row :=
  match x !! i with
  | Some r => Ok r
  | None => Raise IndexError
  end.

(** ** BracketSearch: lines 106-129 (221-244) *)

Record bracket := {
  Iabv : row;
  Aabv : row;
  Ibel : row;
  Abel : row;
  Ieq : row
}.

Definition bracket_init (sh2 : nat) : bracket :=
  let Iabv0 := replicate sh2 (Some one) in
  let Aabv := ma_scale neg_one Iabv0 in
  let Abel := ma_scale neg_one Iabv0 in
  let Ibel := ma_scale neg_one Iabv0 in
  let Iabv := ma_scale neg_one Iabv0 in
  let Ieq := ma_masked_equal Iabv neg_one in
  {| Iabv := Iabv; Aabv := Aabv; Ibel := Ibel; Abel := Abel; Ieq := Ieq |}.

(** One pass of the loop over the sigma levels. *)
Definition bracket_step (A Idx : array) (lev : F)
    (s : bracket) (i : nat) : result bracket :=
  Idx_i ← getitem Idx i;
  let a := ma_greater_equal Idx_i lev in
  Idx_p ← getitem Idx (i - 1);
  let b := ma_less_equal Idx_p lev in
  a ← ma_logical_and a b;
  Iabv' ← MV2_where a Idx_i (Iabv s);
  A_i ← getitem A i;
  Aabv' ← MV2_where a A_i (Aabv s);
  Ibel' ← MV2_where a Idx_p (Ibel s);
  A_p ← getitem A (i - 1);
  Abel' ← MV2_where a A_p (Abel s);
  Ieq' ← MV2_where (ma_equal Idx_i lev) A_i (Ieq s);
  Ok {| Iabv := Iabv'; Aabv := Aabv'; Ibel := Ibel'; Abel := Abel';
        Ieq := Ieq' |}.

Fixpoint foldM {S X} (f : S → X → result S) (l : list X) (s : S)
    : result S :=
  match l with
  | [] => Ok s
  | x :: l => s' ← f s x; foldM f l s'
  end.

Definition bracket_search (A Idx : array) (nsigma sh2 : nat) (lev : F)
    : result bracket :=
  foldM (bracket_step A Idx lev) (seq 1 (nsigma - 1)) (bracket_init sh2).

(** ** The interpolation formulas *)

(** [val]: the level, masked where no bracket was recorded. *)
Definition masked_level (Xbel : row) (lev : F) : row :=
  ma_masked_where (ma_equal Xbel neg_one)
                  (replicate (length Xbel) (fmul one lev)).

(** Lines 131-137. *)
Definition linear_formula (lev : F) (s : bracket) : result row :=
  let val := masked_level (Ibel s) lev in
  num ← ma_subtract val (Ibel s);
  den ← ma_subtract (Iabv s) (Ibel s);
  q ← ma_divide num den;
  dA ← ma_subtract (Aabv s) (Abel s);
  p ← ma_multiply q dA;
  ma_add p (Abel s).

(** [MV2.log]: masked where the argument is masked or not positive, or
    the logarithm is not finite. *)
Definition log_cell `{Log F} (a : cell) : cell :=
  match a with
  | Some x =>
      let r := flog x in
      if negb (isfinite r) || log_domain x then None else Some r
  | None => None
  end.
Definition ma_log `{Log F} (x : row) : row := log_cell <$> x.

(** Lines 246-254. *)
Definition loglinear_formula `{Log F} (lev : F) (s : bracket)
    : result row :=
  let val := masked_level (Ibel s) lev in
  num ← ma_divide val (Ibel s);
  den ← ma_divide (Iabv s) (Ibel s);
  q ← ma_divide (ma_log num) (ma_log den);
  dA ← ma_subtract (Aabv s) (Abel s);
  p ← ma_multiply q dA;
  ma_add p (Abel s).

(** ** ExactMatchResolver and the level slice: lines 138-142 (255-259) *)

(** [Ieq.mask is nomask]: no cell of [Ieq] is masked. *)
Definition mask_is_nomask (x : row) : bool :=
  forallb (λ c, bool_decide (is_Some c)) x.

(** [1 - Ieq.mask], used as a condition. *)
Definition not_mask (x : row) : list (option bool) :=
  (λ c, Some (bool_decide (is_Some c))) <$> x.

Definition exact_match (Xeq tl : row) : result row :=
  if mask_is_nomask Xeq then Ok Xeq
  else ma_where (not_mask Xeq) Xeq tl.

Definition astype (x : row) : row :=
  fmap (M:=option) astype_float32 <$> x.

Definition level_slice (formula : F → bracket → result row)
    (A Idx : array) (nsigma sh2 : nat) (lev : F) : result row :=
  s ← bracket_search A Idx nsigma sh2 lev;
  tl ← formula lev s;
  tl ← exact_match (Ieq s) tl;
  Ok (astype tl).

(** [t[ilev] = v]: the slice is broadcast to the shape of [t[ilev]]. *)
Definition setitem (t : array) (sh2 : nat) (ilev : nat) (v : row)
    : result array :=
  v' ← broadcast_to sh2 v;
  Ok (<[ilev := v']> t).

(** The loop over the target levels, lines 102-142 (217-259). *)
Definition level_loop (formula : F → bracket → result row)
    (A Idx : array) (nsigma sh2 nlev : nat) (levels : list F) (t : array)
    : result array :=
  foldM (λ t ilev,
           lev ← match levels !! ilev with
                 | Some lev => Ok lev
                 | None => Raise IndexError
                 end;
           tl ← level_slice formula A Idx nsigma sh2 lev;
           setitem t sh2 ilev tl)
        (seq 0 nlev) t.

(** ** The entry points *)

(** The [levels] argument: a sequence, or a bare number. *)
Inductive pyobj :=
  | Scalar (x : F)
  | Sequence (l : list F).

Definition len (levels : pyobj) : result nat :=
  match levels with
  | Sequence l => Ok (length l)
  | Scalar _ => Raise TypeError
  end.

(** Lines 88-92 (203-207): [try: nlev = len(levels)], and in the handler
    [nlev = 1; levels = [levels, ]]. *)
Definition levels_prologue (levels : pyobj) : nat * list F :=
  match len levels, levels with
  | Ok nlev, Sequence l => (nlev, l)
  | _, Scalar x => (1, [x])
  | Raise _, Sequence l => (1, l)
  end.

(** The auto-bounds mode of [cdms2] (0, 1 and 2). *)
Inductive autobounds := AutoOff | AutoOn | AutoGrid.

(** Computations that read and write the auto-bounds mode and may raise. *)
Definition M (A : Type) : Type := autobounds → result A * autobounds.

#[global] Instance M_ret : MRet M := λ A a g, (Ok a, g).
#[global] Instance M_bind : MBind M := λ A B f m g,
  match m g with
  | (Ok a, g') => f a g'
  | (Raise e, g') => (Raise e, g')
  end.

Definition getAutoBounds : M autobounds := λ g, (Ok g, g).
Definition setAutoBounds (mode : autobounds) : M unit := λ _, (Ok tt, mode).
Definition lift {A} (r : result A) : M A := λ g, (r, g).

(** The returned variable: its cells and the values of its new vertical
    axis [plev]. *)
Record variable := {
  var_data : array;
  var_plev : list F
}.

(** Length of the non-vertical (flattened) dimension of [x], read off
    its first slice.  An array without any level has no slice to read it
    from and counts as having no column: the theorems about widths ask
    for arrays with a level. *)
Definition ncols (x : array) : nat :=
  match x with
  | [] => 0
  | r :: _ => length r
  end.

(** [t.setAxisList(ax)]: [cdms2] refuses an axis whose length differs
    from the dimension it is attached to.  [ax] holds the axes of [A]
    with the first one replaced by the new level axis. *)
Definition setAxisList (A : array) (sh2 : nat) : result unit :=
  if decide (ncols A = sh2) then Ok tt else Raise CDMSError.

Section Interpolation.
(** [cdms2.createAxis(MV2.array(levels).filled())], a library call that
    reads the auto-bounds mode and may raise. *)
Variable createAxis : autobounds → list F → result (list F).

(** The body shared by the two functions, which differ in the formula
    only.  The reordering of the axes, the progress bar (off by default),
    the units and the attributes are not modelled. *)
Definition interpolation (formula : F → bracket → result row)
    (A Idx : array) (levels : pyobj) : M variable :=
  let '(nlev, levels) := levels_prologue levels in
  let nsigma := length Idx in
  Idx0 ← lift (getitem Idx 0);
  let sh2 := length Idx0 in
  let t := replicate nlev (replicate sh2 (Some zero)) in
  t ← lift (level_loop formula A Idx nsigma sh2 nlev levels t);
  autobnds ← getAutoBounds;
  _ ← setAutoBounds AutoOff;
  lvl ← (λ g, (createAxis g levels, g));
  _ ← setAutoBounds autobnds;
  _ ← lift (setAxisList A sh2);
  mret {| var_data := t; var_plev := lvl |}.

Definition linearInterpolation : array → array → pyobj → M variable :=
  interpolation linear_formula.

Definition logLinearInterpolation `{Log F}
    : array → array → pyobj → M variable :=
  interpolation loglinear_formula.

End Interpolation.

End Arrays.

Arguments pyobj F : clear implicits.
Arguments variable F : clear implicits.

(** ** One column

    What the array operations above do to a single column: cell [c] of
    every slice they build depends on the cells [c] of the slices of
    [Idx] and [A] only.  A column is given by its cells [I i] and [A i]
    along the vertical axis. *)

Section Column.
Context {F : Type} `{Num F}.
Local Abbreviation cell := (option F) (only parsing).
Local Abbreviation row := (list (option F)) (only parsing).
Local Abbreviation array := (list (list (option F))) (only parsing).

(** Cell [c] of slice [i] of [x] (masked if there is no such cell). *)
Definition cell_at (x : array) (i c : nat) : cell :=
  x !! i ≫= λ r, mjoin (r !! c).

Record bracket_cell := {
  cIabv : option F;
  cAabv : option F;
  cIbel : option F;
  cAbel : option F;
  cIeq : option F
}.

Definition column_init : bracket_cell :=
  let m := Some (fmul neg_one one) in
  {| cIabv := m; cAabv := m; cIbel := m; cAbel := m;
     cIeq := masked_equal_cell neg_one m |}.

(** The test of lines 113-121: [I i >= lev] and [I (i-1) <= lev]. *)
Definition brackets (lev : F) (I : nat → option F) (i : nat) : option bool :=
  ma_cell2 (λ a b, Some (a && b))
           ((λ a, fge a lev) <$> I i) ((λ a, fle a lev) <$> I (i - 1)).

(** The test of line 129: [I i == lev]. *)
Definition matches (lev : F) (I : nat → option F) (i : nat) : option bool :=
  (λ a, feq a lev) <$> I i.

Definition column_step (lev : F) (I A : nat → option F)
    (s : bracket_cell) (i : nat) : bracket_cell :=
  let a := brackets lev I i in
  {| cIabv := where_cell a (I i) (cIabv s);
     cAabv := where_cell a (A i) (cAabv s);
     cIbel := where_cell a (I (i - 1)) (cIbel s);
     cAbel := where_cell a (A (i - 1)) (cAbel s);
     cIeq := where_cell (matches lev I i) (A i) (cIeq s) |}.

Definition column_search (lev : F) (I A : nat → option F) (nsigma : nat)
    : bracket_cell :=
  fold_left (column_step lev I A) (seq 1 (nsigma - 1)) column_init.

Definition masked_level_cell (xbel : option F) (lev : F) : option F :=
  masked_where_cell ((λ a, feq a neg_one) <$> xbel) (fmul one lev).

Definition cell_sub : option F → option F → option F :=
  ma_cell2 (λ a b, Some (fsub a b)).
Definition cell_mul : option F → option F → option F :=
  ma_cell2 (λ a b, Some (fmul a b)).
Definition cell_add : option F → option F → option F :=
  ma_cell2 (λ a b, Some (fadd a b)).
Definition cell_div : option F → option F → option F :=
  ma_cell2 divide_cell.

Definition linear_cell (lev : F) (s : bracket_cell) : option F :=
  let val := masked_level_cell (cIbel s) lev in
  cell_add
    (cell_mul (cell_div (cell_sub val (cIbel s))
                        (cell_sub (cIabv s) (cIbel s)))
              (cell_sub (cAabv s) (cAbel s)))
    (cAbel s).

Definition loglinear_cell `{Log F} (lev : F) (s : bracket_cell) : option F :=
  let val := masked_level_cell (cIbel s) lev in
  cell_add
    (cell_mul (cell_div (log_cell (cell_div val (cIbel s)))
                        (log_cell (cell_div (cIabv s) (cIbel s))))
              (cell_sub (cAabv s) (cAbel s)))
    (cAbel s).

(** Lines 138-142: the exact match, when valid, replaces the
    interpolated value; the cell is then cast. *)
Definition resolve_cell (xeq tl : option F) : option F :=
  astype_float32 <$> (match xeq with Some v => Some v | None => tl end).

Definition column_out (fcell : F → bracket_cell → option F)
    (lev : F) (I A : nat → option F) (nsigma : nat) : option F :=
  let s := column_search lev I A nsigma in
  resolve_cell (cIeq s) (fcell lev s).

(** The slice of the result at one target level, column by column. *)
Definition slice_of (fcell : F → bracket_cell → option F) (A Idx : array)
    (sh2 : nat) (lev : F) : row :=
  (λ c, column_out fcell lev (λ j, cell_at Idx j c) (λ j, cell_at A j c)
                   (length Idx)) <$> seq 0 sh2.

(** The slices of a bracket whose column [c] is [f c], for [c] in [cols]. *)
Definition pack (cols : list nat) (f : nat → bracket_cell) : bracket :=
  {| Iabv := (λ c, cIabv (f c)) <$> cols;
     Aabv := (λ c, cAabv (f c)) <$> cols;
     Ibel := (λ c, cIbel (f c)) <$> cols;
     Abel := (λ c, cAbel (f c)) <$> cols;
     Ieq := (λ c, cIeq (f c)) <$> cols |}.

(** An array of [sh2] columns. *)
Definition has_columns (sh2 : nat) (x : array) : Prop :=
  Forall (λ r, length r = sh2) x.

(** Cell [c] of slice [ilev] of the returned variable: [Some None] is a
    masked cell, [None] stands for a call that raised or a cell that does
    not exist. *)
Definition output_cell (r : result (variable F) * autobounds)
    (ilev c : nat) : option (option F) :=
  match r.1 with
  | Ok v => var_data v !! ilev ≫= λ s, s !! c
  | Raise _ => None
  end.

(** [lev] lies above every valid coordinate of the column, or below
    every one of them. *)
Definition out_of_range (lev : F) (I : nat → option F) (nsigma : nat)
    : Prop :=
  (∀ i x, i < nsigma → I i = Some x → flt x lev = true)
  ∨ (∀ i x, i < nsigma → I i = Some x → flt lev x = true).

(** What the comparisons of an ordered number type satisfy. *)
Record NumOrder : Prop := {
  flt_not_fge : ∀ x y, flt x y = true → fge x y = false;
  flt_not_fle : ∀ x y, flt x y = true → fle y x = false;
  flt_not_feq_l : ∀ x y, flt x y = true → feq x y = false;
  flt_not_feq_r : ∀ x y, flt x y = true → feq y x = false;
  sentinel_feq : feq (fmul neg_one one) neg_one = true
}.

(** No bracket is on record: the lower coordinate is masked or still
    compares equal to the sentinel [-1]. *)
Definition unbracketed (s : bracket_cell) : Prop :=
  cIbel s = None ∨ ∃ b, cIbel s = Some b ∧ feq b neg_one = true.

(** Every valid cell of the slice is the cast of some number. *)
Definition cast_row (r : row) : Prop :=
  ∀ c x, r !! c = Some (Some x) → ∃ y, x = astype_float32 y.

(** A formula on slices that acts as [fcell] in every column. *)
Definition cellwise (formula : F → bracket → result row)
    (fcell : F → bracket_cell → option F) : Prop :=
  ∀ lev cols f,
    formula lev (pack cols f) = Ok ((λ c, fcell lev (f c)) <$> cols).

End Column.

(** ** IEEE 754 double precision

    numpy's [float64], after the specification of binary floating-point
    arithmetic of the Standard Library ([SpecFloat], round to nearest
    even). *)

Module F64.

Definition prec : Z := 53.
Definition emax : Z := 1024.

Definition t := spec_float.

(** The double nearest to an integer. *)
Definition of_Z (z : Z) : t := binary_normalize prec emax z 0 false.

(** The double nearest to [m * 2^e]. *)
Definition of_bits (m e : Z) : t := binary_normalize prec emax m e false.

Definition is_finite (x : t) : bool :=
  match x with
  | S754_nan | S754_infinity _ => false
  | _ => true
  end.

(** [numpy.finfo(float).tiny], the smallest normal double [2^-1022]. *)
Definition tiny : t := of_bits 1 (-1022).

(** [abs(a) * tiny >= abs(b)]: the domain of [numpy.ma.divide]. *)
Definition safe_divide_domain (a b : t) : bool :=
  SFleb (SFabs b) (SFmul prec emax (SFabs a) tiny).

(** Cast to [float32]: round to 24 bits of precision, and write the
    single so obtained as the double of the same value. *)
Definition to_float32 (x : t) : t :=
  match x with
  | S754_finite s m e =>
      match binary_round 24 128 s m e with
      | S754_finite s' m' e' => binary_round prec emax s' m' e'
      | y => y
      end
  | _ => x
  end.

#[global] Instance num : Num t := {|
  fadd := SFadd prec emax;
  fsub := SFsub prec emax;
  fmul := SFmul prec emax;
  fdiv := SFdiv prec emax;
  fge x y := SFleb y x;
  fle x y := SFleb x y;
  feq := SFeqb;
  flt := SFltb;
  zero := S754_zero false;
  one := of_Z 1;
  neg_one := of_Z (-1);
  isfinite := is_finite;
  div_domain := safe_divide_domain;
  astype_float32 := to_float32
|}.

(** [numpy.log] on doubles is not part of the arithmetic above; it is a
    parameter of the instance. *)
Definition log_of (ln : t → t) : Log t := {|
  flog := ln;
  log_domain x := SFleb x (S754_zero false)
|}.

(** A slice of valid cells holding integers. *)
Definition cells (l : list Z) : list (option t) := (λ z, Some (of_Z z)) <$> l.

(** The default of the [levels] argument. *)
Definition default_levels : pyobj t :=
  Sequence (of_Z <$> [100000; 92500; 85000; 70000; 60000; 50000; 40000;
                      30000; 25000; 20000; 15000; 10000; 7000; 5000;
                      3000; 2000; 1000]%Z).

End F64.

(** ** Real numbers

    The same program on exact real numbers: no rounding, every number
    finite, and the cast to float32 the identity.  It gives the formulas
    their mathematical value, with the natural logarithm [ln]. *)

Module Real.

Definition geb (x y : R) : bool := if Rle_dec y x then true else false.
Definition leb (x y : R) : bool := if Rle_dec x y then true else false.
Definition eqb (x y : R) : bool := if Req_dec_T x y then true else false.
Definition ltb (x y : R) : bool := if Rlt_dec x y then true else false.

(** [2^-1022], as for doubles. *)
Definition tiny : R := (/ 2 ^ 1022)%R.

#[global] Instance num : Num R := {|
  fadd := Rplus;
  fsub := Rminus;
  fmul := Rmult;
  fdiv := Rdiv;
  fge := geb;
  fle := leb;
  feq := eqb;
  flt := ltb;
  zero := 0%R;
  one := 1%R;
  neg_one := (-1)%R;
  isfinite := λ _, true;
  div_domain a b := leb (Rabs b) (Rabs a * tiny);
  astype_float32 := λ x, x
|}.

#[global] Instance log : Log R := {|
  flog := ln;
  log_domain x := leb x 0
|}.

(** A slice of valid cells. *)
Definition cells (l : list R) : list (option R) := Some <$> l.

End Real.

(** ** Sample inputs *)

Module Sample.

(** An axis constructor that accepts every list of levels. *)
Definition createAxis {F} (_ : autobounds) (levels : list F)
    : result (list F) := Ok levels.

(** An axis constructor that refuses every list of levels. *)
Definition failingAxis {F} (_ : autobounds) (_ : list F)
    : result (list F) := Raise CDMSError.

(** One column with coordinates 20000, 50000, 100000 from top to bottom
    and field values 1, 2, 3. *)
Definition Idx : list (list (option F64.t)) :=
  [F64.cells [20000]; F64.cells [50000]; F64.cells [100000]]%Z.
Definition A : list (list (option F64.t)) :=
  [F64.cells [1]; F64.cells [2]; F64.cells [3]]%Z.

(** The same column on real numbers. *)
Definition IdxR : list (list (option R)) :=
  [Real.cells [20000]; Real.cells [50000]; Real.cells [100000]]%R.
Definition AR : list (list (option R)) :=
  [Real.cells [1]; Real.cells [2]; Real.cells [3]]%R.

End Sample.

(** ** Pressure on hybrid levels: lines 8-49

    [reconstructPressureFromHybrid(ps, A, B, Po)].  [ps] is the surface
    pressure, one cell per column; [A] and [B] are the coefficients on the
    sigma axis, one cell per level; [Po] is a number.  [genutil.grower]
    brings [ps] and the coefficients to one shape, so that [ps * B] and
    [A * Po] are cell by cell products; the result is reordered with the
    level first, which is how the interpolation functions read it.  The
    identifier, the units and a time axis are not modelled, and [A] and
    [B] are taken on one axis (the theorems ask for one length). *)

Section Pressure.
Context {F : Type} `{Num F}.

Definition reconstructPressureFromHybrid (ps A B : list (option F)) (Po : F)
    : list (list (option F)) :=
  zip_with (λ a b,
              (λ s, ma_cell2 (λ x y, Some (fadd x y))
                             (ma_cell2 (λ x y, Some (fmul x y)) s b)
                             ((λ x, fmul x Po) <$> a)) <$> ps)
           A B.

(** A column whose coordinates are valid and go up with the level, as
    the docstrings ask of [Idx] and [P]. *)
Definition increasing (I : nat → option F) (nsigma : nat) : Prop :=
  ∀ j, S j < nsigma →
    ∃ x y, I j = Some x ∧ I (S j) = Some y ∧ flt x y = true.

(** A column whose valid coordinates go down with the level: the arrays
    run from bottom to top. *)
Definition decreasing (I : nat → option F) (nsigma : nat) : Prop :=
  ∀ j, S j < nsigma →
    ∃ x y, I j = Some x ∧ I (S j) = Some y ∧ flt y x = true.

(** On an ordered number type [y <= l <= x] excludes [x < y]. *)
Record NumBetween : Prop := {
  between_not_flt :
    ∀ x y l, fge x l = true → fle y l = true → flt x y = false
}.

(** What [<] further satisfies on an ordered number type. *)
Record NumStrict : Prop := {
  flt_trans : ∀ x y z, flt x y = true → flt y z = true → flt x z = true;
  flt_fle : ∀ x y, flt x y = true → fle x y = true;
  flt_fge : ∀ x y, flt x y = true → fge y x = true
}.

(** What numpy's broadcasting makes of a field of one column that is
    read against slices of [m] cells: the column, repeated [m] times. *)
Definition broadcast_columns (m : nat) (A : list (list (option F)))
    : list (list (option F)) :=
  (λ r, match r with [x] => replicate m x | _ => r end) <$> A.

End Pressure.

(** * Properties *)

(** ** Slices as maps over the columns *)

Section SliceLemmas.
Context {F : Type} `{Num F}.
Local Abbreviation row := (list (option F)) (only parsing).
Local Abbreviation array := (list (list (option F))) (only parsing).

Lemma broadcast_shape_same n : broadcast_shape n n = Ok n.
Proof. unfold broadcast_shape. by rewrite decide_True. Qed.

Lemma broadcast_to_same {A} n (l : list A) :
  length l = n → broadcast_to n l = Ok l.
Proof. intros Hl. unfold broadcast_to. by rewrite decide_True. Qed.

Lemma zip_with_fmap_same {X A B C} (h : A → B → C) (g1 : X → A) (g2 : X → B)
    (l : list X) :
  zip_with h (g1 <$> l) (g2 <$> l) = (λ c, h (g1 c) (g2 c)) <$> l.
Proof. induction l as [|x l IH]; csimpl; [done | by rewrite IH]. Qed.

Lemma ma_binary_fmap {X A B C} (f : A → B → option C)
    (g1 : X → option A) (g2 : X → option B) (l : list X) :
  ma_binary f (g1 <$> l) (g2 <$> l)
  = Ok ((λ c, ma_cell2 f (g1 c) (g2 c)) <$> l).
Proof.
  unfold ma_binary. rewrite !length_fmap, broadcast_shape_same. cbn.
  rewrite !broadcast_to_same by apply length_fmap. cbn.
  by rewrite zip_with_fmap_same.
Qed.

Lemma ma_where_fmap {X A} (gc : X → option bool) (gx gy : X → option A)
    (l : list X) :
  ma_where (gc <$> l) (gx <$> l) (gy <$> l)
  = Ok ((λ c, where_cell (gc c) (gx c) (gy c)) <$> l).
Proof.
  unfold ma_where. rewrite !length_fmap, broadcast_shape_same. cbn.
  rewrite broadcast_shape_same. cbn.
  rewrite !broadcast_to_same by apply length_fmap. cbn.
  f_equal. induction l as [|x l IH]; csimpl; [done | by rewrite IH].
Qed.

Lemma MV2_where_fmap {X A} (gc : X → option bool) (gx gy : X → option A)
    (l : list X) :
  MV2_where (gc <$> l) (gx <$> l) (gy <$> l)
  = Ok ((λ c, where_cell (gc c) (gx c) (gy c)) <$> l).
Proof.
  unfold MV2_where. rewrite ma_where_fmap. cbn.
  by rewrite decide_True by (by rewrite !length_fmap).
Qed.

(** A slice of [sh2] cells is the map of its cells over the columns. *)
Lemma row_as_fmap (r : row) sh2 :
  length r = sh2 → r = (λ c, mjoin (r !! c)) <$> seq 0 sh2.
Proof.
  intros Hl. apply list_eq. intros c. rewrite list_lookup_fmap.
  destruct (decide (c < sh2)) as [Hc|Hc].
  - rewrite lookup_seq_lt by done. cbn.
    destruct (r !! c) as [x|] eqn:Hr; [done|].
    apply lookup_ge_None in Hr. lia.
  - rewrite lookup_seq_ge by lia. cbn. apply lookup_ge_None. lia.
Qed.

Lemma getitem_cell_at (x : array) sh2 i :
  has_columns sh2 x → i < length x →
  getitem x i = Ok (cell_at x i <$> seq 0 sh2).
Proof.
  intros Hx Hi. unfold getitem.
  destruct (x !! i) as [r|] eqn:Hr.
  - f_equal. rewrite (row_as_fmap r sh2) at 1.
    + apply list_fmap_ext. intros _ c _. unfold cell_at. by rewrite Hr.
    + eapply (Forall_lookup_1 _ _ _ _ Hx Hr).
  - apply lookup_ge_None in Hr. lia.
Qed.

Lemma replicate_as_fmap {A} (x : A) n : replicate n x = (λ _, x) <$> seq 0 n.
Proof.
  apply list_eq. intros c. rewrite list_lookup_fmap.
  destruct (decide (c < n)).
  - by rewrite lookup_replicate_2, lookup_seq_lt.
  - rewrite lookup_seq_ge by lia. apply lookup_replicate_None. lia.
Qed.

Lemma bracket_init_pack sh2 :
  bracket_init sh2 = pack (seq 0 sh2) (λ _, column_init).
Proof.
  unfold bracket_init, pack, ma_masked_equal, ma_scale. cbn.
  rewrite !fmap_replicate. cbn. by rewrite !replicate_as_fmap.
Qed.

Lemma bracket_step_pack (A Idx : array) sh2 lev f i :
  has_columns sh2 Idx → has_columns sh2 A →
  i < length Idx → i < length A →
  bracket_step A Idx lev (pack (seq 0 sh2) f) i
  = Ok (pack (seq 0 sh2)
          (λ c, column_step lev (λ j, cell_at Idx j c) (λ j, cell_at A j c)
                            (f c) i)).
Proof.
  intros HI HA Hi Hi'. unfold bracket_step.
  rewrite !(getitem_cell_at Idx sh2) by (done || lia). cbn.
  rewrite !(getitem_cell_at A sh2) by (done || lia). cbn.
  unfold ma_logical_and, ma_greater_equal, ma_less_equal, ma_equal.
  rewrite <- !list_fmap_compose, ma_binary_fmap. cbn.
  rewrite !MV2_where_fmap. cbn. done.
Qed.

Lemma bracket_foldM_pack (A Idx : array) sh2 lev idxs : ∀ f,
  has_columns sh2 Idx → has_columns sh2 A →
  Forall (λ i, i < length Idx ∧ i < length A) idxs →
  foldM (bracket_step A Idx lev) idxs (pack (seq 0 sh2) f)
  = Ok (pack (seq 0 sh2)
          (λ c, fold_left (column_step lev (λ j, cell_at Idx j c)
                                       (λ j, cell_at A j c)) idxs (f c))).
Proof.
  induction idxs as [|i idxs IH]; intros f HI HA Hidx; [done|].
  apply Forall_cons in Hidx as [[Hi Hi'] Hidx]. cbn.
  rewrite (bracket_step_pack A Idx sh2) by done. cbn.
  by rewrite IH.
Qed.

Lemma bracket_search_pack (A Idx : array) sh2 lev :
  has_columns sh2 Idx → has_columns sh2 A → length Idx ≤ length A →
  bracket_search A Idx (length Idx) sh2 lev
  = Ok (pack (seq 0 sh2)
          (λ c, column_search lev (λ j, cell_at Idx j c)
                              (λ j, cell_at A j c) (length Idx))).
Proof.
  intros HI HA Hlen. unfold bracket_search, column_search.
  rewrite bracket_init_pack. apply bracket_foldM_pack; [done..|].
  apply Forall_forall. intros i Hi%elem_of_seq. lia.
Qed.

Lemma masked_level_fmap {X} (g : X → option F) lev (l : list X) :
  masked_level (g <$> l) lev = (λ c, masked_level_cell (g c) lev) <$> l.
Proof.
  unfold masked_level, ma_masked_where, ma_equal.
  rewrite length_fmap. induction l as [|x l IH]; csimpl; [done|].
  by rewrite IH.
Qed.

Lemma linear_formula_cellwise : cellwise linear_formula linear_cell.
Proof.
  intros lev cols f. unfold linear_formula, pack.
  cbn [Iabv Aabv Ibel Abel]. rewrite masked_level_fmap.
  unfold ma_subtract, ma_divide, ma_multiply, ma_add.
  repeat (rewrite ma_binary_fmap; cbn). done.
Qed.

Lemma loglinear_formula_cellwise `{Log F} :
  cellwise loglinear_formula loglinear_cell.
Proof.
  intros lev cols f. unfold loglinear_formula, pack.
  cbn [Iabv Aabv Ibel Abel]. rewrite masked_level_fmap.
  unfold ma_subtract, ma_divide, ma_multiply, ma_add, ma_log.
  repeat (rewrite ma_binary_fmap; cbn; rewrite <- ?list_fmap_compose).
  done.
Qed.

Lemma exact_match_fmap {X} (gq gt : X → option F) (l : list X) :
  exact_match (gq <$> l) (gt <$> l)
  = Ok ((λ c, match gq c with Some v => Some v | None => gt c end) <$> l).
Proof.
  unfold exact_match. destruct (mask_is_nomask _) eqn:Hm.
  - f_equal. apply list_fmap_ext. intros i c Hc.
    unfold mask_is_nomask in Hm.
    apply Is_true_eq_left, forallb_True in Hm.
    rewrite Forall_fmap, Forall_lookup in Hm.
    specialize (Hm i c Hc). cbn in Hm.
    apply bool_decide_unpack in Hm as [v ->]. done.
  - unfold not_mask. rewrite <- list_fmap_compose, ma_where_fmap.
    f_equal. apply list_fmap_ext. intros i c _. cbn.
    destruct (gq c); done.
Qed.

Lemma level_slice_fmap formula fcell (A Idx : array) sh2 lev :
  cellwise formula fcell →
  has_columns sh2 Idx → has_columns sh2 A → length Idx ≤ length A →
  level_slice formula A Idx (length Idx) sh2 lev
  = Ok ((λ c, column_out fcell lev (λ j, cell_at Idx j c)
                         (λ j, cell_at A j c) (length Idx)) <$> seq 0 sh2).
Proof.
  intros Hf HI HA Hlen. unfold level_slice.
  rewrite bracket_search_pack by done. cbn.
  rewrite Hf. cbn. rewrite exact_match_fmap. cbn.
  unfold astype. by rewrite <- list_fmap_compose.
Qed.

End SliceLemmas.

(** ** The loop over the levels and the entry points *)

Section KernelLemmas.
Context {F : Type} `{Num F}.
Local Abbreviation row := (list (option F)) (only parsing).
Local Abbreviation array := (list (list (option F))) (only parsing).

Lemma foldM_app {S X} (f : S → X → result S) l1 l2 s :
  foldM f (l1 ++ l2) s = foldM f l1 s ≫= foldM f l2.
Proof.
  revert s. induction l1 as [|x l1 IH]; intros s; cbn; [done|].
  destruct (f s x); cbn; [apply IH | done].
Qed.

Lemma level_loop_prefix formula fcell (A Idx : array) sh2 levels t n :
  cellwise formula fcell →
  has_columns sh2 Idx → has_columns sh2 A → length Idx ≤ length A →
  length t = length levels → n ≤ length levels →
  ∃ t', level_loop formula A Idx (length Idx) sh2 n levels t = Ok t'
        ∧ length t' = length levels
        ∧ ∀ i lev, i < n → levels !! i = Some lev →
            t' !! i = Some (slice_of fcell A Idx sh2 lev).
Proof.
  intros Hf HI HA Hlen Ht. unfold level_loop.
  induction n as [|n IH]; intros Hn.
  - exists t. split_and!; [done..|]. intros; lia.
  - destruct IH as (t' & Ht' & Hlt' & Hrows); [lia|].
    rewrite seq_S, foldM_app, Ht'. cbn.
    destruct (levels !! n) as [lev|] eqn:Hlev;
      [|apply lookup_ge_None in Hlev; lia]. cbn.
    rewrite (level_slice_fmap formula fcell) by done. cbn.
    unfold setitem. rewrite broadcast_to_same
      by (by rewrite length_fmap, length_seq). cbn.
    eexists. split_and!; [done|by rewrite length_insert|].
    intros i lev' Hi Hlev'. destruct (decide (i = n)) as [->|Hne].
    + rewrite list_lookup_insert_eq by lia.
      rewrite Hlev in Hlev'. by injection Hlev' as <-.
    + rewrite list_lookup_insert_ne by done. apply Hrows; [lia|done].
Qed.

Lemma level_loop_spec formula fcell (A Idx : array) sh2 levels t :
  cellwise formula fcell →
  has_columns sh2 Idx → has_columns sh2 A → length Idx ≤ length A →
  length t = length levels →
  level_loop formula A Idx (length Idx) sh2 (length levels) levels t
  = Ok (slice_of fcell A Idx sh2 <$> levels).
Proof.
  intros Hf HI HA Hlen Ht.
  destruct (level_loop_prefix formula fcell A Idx sh2 levels t
              (length levels)) as (t' & -> & Hlt' & Hrows); [done..|].
  f_equal. apply list_eq. intros i. rewrite list_lookup_fmap.
  destruct (levels !! i) as [lev|] eqn:Hlev; cbn.
  - apply Hrows; [|done]. by eapply lookup_lt_Some.
  - apply lookup_ge_None. apply lookup_ge_None in Hlev. lia.
Qed.

Lemma levels_prologue_length (levels : pyobj F) :
  (levels_prologue levels).1 = length (levels_prologue levels).2.
Proof. by destruct levels. Qed.

(** On arrays of one shape the call returns, and every cell of the
    result is the output of its own column. *)
Lemma interpolation_spec createAxis formula fcell (A Idx : array) sh2
    levels lvl g :
  cellwise formula fcell →
  has_columns sh2 Idx → has_columns sh2 A →
  0 < length Idx → length Idx ≤ length A →
  createAxis AutoOff (levels_prologue levels).2 = Ok lvl →
  interpolation createAxis formula A Idx levels g
  = (Ok {| var_data :=
             slice_of fcell A Idx sh2 <$> (levels_prologue levels).2;
           var_plev := lvl |}, g).
Proof.
  intros Hf HI HA Hpos Hlen Hax. unfold interpolation.
  pose proof (levels_prologue_length levels) as Hnlev.
  destruct (levels_prologue levels) as [nlev levels']. cbn in Hnlev, Hax.
  subst nlev.
  unfold mbind, M_bind, lift.
  rewrite (getitem_cell_at Idx sh2) by done.
  rewrite length_fmap, length_seq.
  rewrite (level_loop_spec formula fcell)
    by (done || by rewrite length_replicate).
  cbn. rewrite Hax. cbn. unfold setAxisList.
  destruct A as [|r A]; [cbn in Hlen; lia|].
  apply Forall_cons in HA as [Hr _]. cbn. by rewrite decide_True.
Qed.

(** What the loop writes are casts, whatever the shapes. *)
Lemma level_slice_cast formula (A Idx : array) nsigma sh2 lev r :
  level_slice formula A Idx nsigma sh2 lev = Ok r → cast_row r.
Proof.
  unfold level_slice.
  destruct (bracket_search _ _ _ _ _) as [s|]; [cbn|done].
  destruct (formula lev s) as [tl|]; [cbn|done].
  destruct (exact_match _ _) as [tl'|]; [cbn|done].
  intros [= <-] c x Hc. unfold astype in Hc.
  rewrite list_lookup_fmap in Hc.
  destruct (tl' !! c) as [[y|]|]; [|done..].
  injection Hc as <-. by exists y.
Qed.

Lemma broadcast_to_cast n (r r' : row) :
  broadcast_to n r = Ok r' → cast_row r → cast_row r'.
Proof.
  unfold broadcast_to. destruct (decide _); [by intros [= <-]|].
  destruct r as [|a [|]]; [done| |done].
  intros [= <-] Hr c x [<- _]%lookup_replicate. by apply (Hr 0).
Qed.

Lemma level_loop_cast formula (A Idx : array) nsigma sh2 levels t n : ∀ t',
  level_loop formula A Idx nsigma sh2 n levels t = Ok t' →
  length t' = length t
  ∧ ∀ i r, i < n → t' !! i = Some r → cast_row r.
Proof.
  unfold level_loop. induction n as [|n IH]; intros t'.
  - intros [= <-]. split; [done|]. intros; lia.
  - rewrite seq_S, foldM_app.
    destruct (foldM _ (seq 0 n) t) as [t1|]; [|done].
    destruct (IH t1 eq_refl) as [Hlen Hrows]. cbn.
    destruct (levels !! n) as [lev|]; [cbn|done].
    destruct (level_slice _ _ _ _ _ _) as [r|] eqn:Hr; [cbn|done].
    unfold setitem.
    destruct (broadcast_to sh2 r) as [r'|] eqn:Hr'; [cbn|done].
    intros [= <-]. split; [by rewrite length_insert|].
    intros i r0 Hi. destruct (decide (i = n)) as [->|Hne].
    + intros Hl. apply list_lookup_insert_Some in Hl as [(_ & <- & _)|[? _]];
        [|done].
      eapply broadcast_to_cast; [done|]. by eapply level_slice_cast.
    + rewrite list_lookup_insert_ne by done. apply Hrows. lia.
Qed.

End KernelLemmas.

(** ** The scan of one column *)

Section ColumnLemmas.
Context {F : Type} `{Num F}.
Implicit Types (I A : nat → option F) (s : bracket_cell (F:=F)).
Implicit Types (lev : F) (idxs : list nat).

Lemma output_cell_spec createAxis formula fcell
    (A Idx : list (list (option F))) sh2 levels lvl g ilev lev c :
  cellwise formula fcell →
  has_columns sh2 Idx → has_columns sh2 A →
  0 < length Idx → length Idx ≤ length A →
  createAxis AutoOff (levels_prologue levels).2 = Ok lvl →
  (levels_prologue levels).2 !! ilev = Some lev → c < sh2 →
  output_cell (interpolation createAxis formula A Idx levels g) ilev c
  = Some (column_out fcell lev (λ j, cell_at Idx j c) (λ j, cell_at A j c)
                     (length Idx)).
Proof.
  intros Hf HI HA Hpos Hlen Hax Hlev Hc. unfold output_cell.
  rewrite (interpolation_spec createAxis formula fcell A Idx sh2 levels lvl)
    by done.
  cbn. rewrite list_lookup_fmap, Hlev. cbn. unfold slice_of.
  rewrite list_lookup_fmap, lookup_seq_lt by done. done.
Qed.

Lemma brackets_true lev I i hi lo :
  I i = Some hi → I (i - 1) = Some lo →
  fge hi lev = true → fle lo lev = true →
  brackets lev I i = Some true.
Proof. intros Hi Hp Hge Hle. unfold brackets. by rewrite Hi, Hp; cbn; rewrite Hge, Hle. Qed.

(** An index at which the test fails leaves the bracket as it was. *)
Lemma scan_bracket_unchanged lev I A idxs : ∀ s,
  Forall (λ j, brackets lev I j = Some false) idxs →
  let s' := fold_left (column_step lev I A) idxs s in
  cIabv s' = cIabv s ∧ cAabv s' = cAabv s
  ∧ cIbel s' = cIbel s ∧ cAbel s' = cAbel s.
Proof.
  induction idxs as [|j idxs IH]; intros s Hall; [done|].
  apply Forall_cons in Hall as [Hj Hall]. cbn.
  destruct (IH (column_step lev I A s j) Hall) as (-> & -> & -> & ->).
  unfold column_step. cbn. by rewrite Hj.
Qed.

Lemma scan_ieq_unchanged lev I A idxs : ∀ s,
  Forall (λ j, matches lev I j = Some false) idxs →
  cIeq (fold_left (column_step lev I A) idxs s) = cIeq s.
Proof.
  induction idxs as [|j idxs IH]; intros s Hall; [done|].
  apply Forall_cons in Hall as [Hj Hall]. cbn.
  rewrite (IH _ Hall). unfold column_step. cbn. by rewrite Hj.
Qed.

(** The last index at which the test holds decides the bracket. *)
Lemma scan_last_bracket lev I A pre i post s :
  brackets lev I i = Some true →
  Forall (λ j, brackets lev I j = Some false) post →
  let s' := fold_left (column_step lev I A) (pre ++ i :: post) s in
  cIabv s' = I i ∧ cAabv s' = A i
  ∧ cIbel s' = I (i - 1) ∧ cAbel s' = A (i - 1).
Proof.
  intros Hi Hpost. rewrite fold_left_app. cbn.
  destruct (scan_bracket_unchanged lev I A post
              (column_step lev I A (fold_left (column_step lev I A) pre s) i)
              Hpost) as (-> & -> & -> & ->).
  unfold column_step. cbn. by rewrite Hi.
Qed.

Lemma scan_last_match lev I A pre i post s :
  matches lev I i = Some true →
  Forall (λ j, matches lev I j = Some false) post →
  cIeq (fold_left (column_step lev I A) (pre ++ i :: post) s) = A i.
Proof.
  intros Hi Hpost. rewrite fold_left_app. cbn.
  rewrite (scan_ieq_unchanged lev I A post _ Hpost).
  unfold column_step. cbn. by rewrite Hi.
Qed.

(** Without an index at which the test holds, the lower coordinate is
    the one the scan started from, or masked. *)
Lemma scan_ibel_kept lev I A idxs : ∀ s,
  Forall (λ j, brackets lev I j ≠ Some true) idxs →
  let s' := fold_left (column_step lev I A) idxs s in
  cIbel s' = cIbel s ∨ cIbel s' = None.
Proof.
  induction idxs as [|j idxs IH]; intros s Hall; [by left|].
  apply Forall_cons in Hall as [Hj Hall]. cbn.
  destruct (IH (column_step lev I A s j) Hall) as [->| ->]; [|by right].
  unfold column_step. cbn.
  destruct (brackets lev I j) as [[]|]; [done|by left|by right].
Qed.

Lemma scan_ieq_masked lev I A idxs : ∀ s,
  Forall (λ j, matches lev I j ≠ Some true) idxs →
  cIeq s = None →
  cIeq (fold_left (column_step lev I A) idxs s) = None.
Proof.
  induction idxs as [|j idxs IH]; intros s Hall Hs; [done|].
  apply Forall_cons in Hall as [Hj Hall]. cbn. apply IH; [done|].
  unfold column_step. cbn.
  destruct (matches lev I j) as [[]|]; done.
Qed.

(** The indices of the scan, split at [i]. *)
Lemma scan_indices_split nsigma i :
  1 ≤ i → i < nsigma →
  seq 1 (nsigma - 1) = seq 1 (i - 1) ++ i :: seq (S i) (nsigma - 1 - i).
Proof.
  intros H1 Hn.
  replace (nsigma - 1) with ((i - 1) + S (nsigma - 1 - i)) at 1 by lia.
  rewrite seq_app. f_equal.
  replace (1 + (i - 1)) with i by lia. done.
Qed.

Lemma column_search_last_bracket lev I A nsigma i :
  1 ≤ i → i < nsigma →
  brackets lev I i = Some true →
  (∀ j, i < j → j < nsigma → brackets lev I j = Some false) →
  let s := column_search lev I A nsigma in
  cIabv s = I i ∧ cAabv s = A i ∧ cIbel s = I (i - 1) ∧ cAbel s = A (i - 1).
Proof.
  intros H1 Hn Hi Hlater. unfold column_search.
  rewrite (scan_indices_split nsigma i) by done.
  apply scan_last_bracket; [done|].
  apply Forall_forall. intros j Hj%elem_of_seq. apply Hlater; lia.
Qed.

Lemma column_search_last_match lev I A nsigma i :
  1 ≤ i → i < nsigma →
  matches lev I i = Some true →
  (∀ j, i < j → j < nsigma → matches lev I j = Some false) →
  cIeq (column_search lev I A nsigma) = A i.
Proof.
  intros H1 Hn Hi Hlater. unfold column_search.
  rewrite (scan_indices_split nsigma i) by done.
  apply scan_last_match; [done|].
  apply Forall_forall. intros j Hj%elem_of_seq. apply Hlater; lia.
Qed.

(** Whatever the formula gives, a valid exact match is the output. *)
Lemma column_out_exact fcell lev I A nsigma i v :
  1 ≤ i → i < nsigma →
  matches lev I i = Some true →
  (∀ j, i < j → j < nsigma → matches lev I j = Some false) →
  A i = Some v →
  column_out fcell lev I A nsigma = Some (astype_float32 v).
Proof.
  intros H1 Hn Hi Hlater Hv. unfold column_out.
  rewrite (column_search_last_match lev I A nsigma i) by done.
  by rewrite Hv.
Qed.

Lemma masked_level_unbracketed lev s :
  unbracketed s → masked_level_cell (cIbel s) lev = None.
Proof.
  intros [Hs|(b & Hs & Hb)]; unfold masked_level_cell; rewrite Hs; [done|].
  cbn. by rewrite Hb.
Qed.

Lemma linear_cell_unbracketed lev s :
  unbracketed s → linear_cell lev s = None.
Proof.
  intros Hs. unfold linear_cell. by rewrite masked_level_unbracketed.
Qed.

Lemma loglinear_cell_unbracketed `{Log F} lev s :
  unbracketed s → loglinear_cell lev s = None.
Proof.
  intros Hs. unfold loglinear_cell. by rewrite masked_level_unbracketed.
Qed.

(** No bracket and no exact match: the output cell is masked. *)
Lemma column_out_masked fcell lev I A nsigma :
  (∀ s, unbracketed s → fcell lev s = None) →
  unbracketed (column_search lev I A nsigma) →
  cIeq (column_search lev I A nsigma) = None →
  column_out fcell lev I A nsigma = None.
Proof.
  intros Hf Hs Heq. unfold column_out. by rewrite Heq, Hf.
Qed.

(** [Ieq] starts masked, since [-1 * 1 == -1], and stays so without a
    match. *)
Lemma column_search_no_match lev I A nsigma :
  feq (fmul neg_one one) neg_one = true →
  (∀ j, 1 ≤ j → j < nsigma → matches lev I j ≠ Some true) →
  cIeq (column_search lev I A nsigma) = None.
Proof.
  intros Hsent Hno. unfold column_search. apply scan_ieq_masked.
  - apply Forall_forall. intros j Hj%elem_of_seq. apply Hno; lia.
  - cbn. by rewrite Hsent.
Qed.

(** Without a bracket the scan ends unbracketed. *)
Lemma column_search_no_bracket lev I A nsigma :
  feq (fmul neg_one one) neg_one = true →
  (∀ j, 1 ≤ j → j < nsigma → brackets lev I j ≠ Some true) →
  unbracketed (column_search lev I A nsigma).
Proof.
  intros Hsent Hno. unfold column_search, unbracketed.
  destruct (scan_ibel_kept lev I A (seq 1 (nsigma - 1)) column_init)
    as [->| ->]; [|by right; eexists|by left].
  apply Forall_forall. intros j Hj%elem_of_seq. apply Hno; lia.
Qed.

(** A last bracket whose lower coordinate compares equal to [-1] also
    ends unbracketed. *)
Lemma column_search_sentinel_bracket lev I A nsigma i lo :
  1 ≤ i → i < nsigma →
  brackets lev I i = Some true →
  I (i - 1) = Some lo → feq lo neg_one = true →
  (∀ j, i < j → j < nsigma → brackets lev I j ≠ Some true) →
  unbracketed (column_search lev I A nsigma).
Proof.
  intros H1 Hn Hi Hlo Hsent Hlater. unfold column_search, unbracketed.
  rewrite (scan_indices_split nsigma i), fold_left_app by done. cbn.
  destruct (scan_ibel_kept lev I A (seq (S i) (nsigma - 1 - i))
              (column_step lev I A
                 (fold_left (column_step lev I A) (seq 1 (i - 1))
                            column_init) i))
    as [->| ->]; [| |by left].
  - apply Forall_forall. intros j Hj%elem_of_seq. apply Hlater; lia.
  - right. exists lo. unfold column_step. cbn. by rewrite Hi.
Qed.

End ColumnLemmas.

(** ** Properties of the bracket search and of the entry points *)

Section Claims.
Context {F : Type} `{Num F} `{Log F}.
Variable createAxis : autobounds → list F → result (list F).
Implicit Types (A Idx : list (list (option F))) (lev : F).


(** C1, amended.  If [Idx[i] == lev] at a scanned index [i >= 1] of a
    column and at no later index, and [A[i]] is valid, the output cell is
    [A[i]] cast to float32, under both formulas: the value comes from
    [Ieq], whatever the interpolation formula yields. *)
Theorem exact_match_resolved A Idx sh2 levels lvl g ilev lev c i x v :
  has_columns sh2 Idx → has_columns sh2 A → length Idx ≤ length A →
  createAxis AutoOff (levels_prologue levels).2 = Ok lvl →
  (levels_prologue levels).2 !! ilev = Some lev → c < sh2 →
  1 ≤ i → i < length Idx →
  cell_at Idx i c = Some x → feq x lev = true →
  (∀ j, i < j → j < length Idx →
        matches lev (λ j, cell_at Idx j c) j = Some false) →
  cell_at A i c = Some v →
  output_cell (linearInterpolation createAxis A Idx levels g) ilev c
  = Some (Some (astype_float32 v))
  ∧ output_cell (logLinearInterpolation createAxis A Idx levels g) ilev c
    = Some (Some (astype_float32 v)).
Proof.
  intros HI HA Hlen Hax Hlev Hc H1 Hn Hx Heq Hlater Hv.
  assert (Hm : matches lev (λ j, cell_at Idx j c) i = Some true).
  { unfold matches. by rewrite Hx; cbn; rewrite Heq. }
  split.
  - unfold linearInterpolation.
    rewrite (output_cell_spec createAxis _ linear_cell A Idx sh2 levels lvl
               g ilev lev c)
      by (apply linear_formula_cellwise || done || lia).
    f_equal. by eapply column_out_exact.
  - unfold logLinearInterpolation.
    rewrite (output_cell_spec createAxis _ loglinear_cell A Idx sh2 levels
               lvl g ilev lev c)
      by (apply loglinear_formula_cellwise || done || lia).
    f_equal. by eapply column_out_exact.
Qed.

(** Both entry points, cell by cell. *)
Lemma entry_points_cells A Idx sh2 levels lvl g ilev lev c :
  has_columns sh2 Idx → has_columns sh2 A →
  0 < length Idx → length Idx ≤ length A →
  createAxis AutoOff (levels_prologue levels).2 = Ok lvl →
  (levels_prologue levels).2 !! ilev = Some lev → c < sh2 →
  let I := λ j, cell_at Idx j c in
  let Fld := λ j, cell_at A j c in
  output_cell (linearInterpolation createAxis A Idx levels g) ilev c
  = Some (column_out linear_cell lev I Fld (length Idx))
  ∧ output_cell (logLinearInterpolation createAxis A Idx levels g) ilev c
    = Some (column_out loglinear_cell lev I Fld (length Idx)).
Proof.
  intros HI HA Hpos Hlen Hax Hlev Hc I Fld. split.
  - by apply (output_cell_spec createAxis _ linear_cell A Idx sh2 levels lvl);
      [apply linear_formula_cellwise|..].
  - by apply (output_cell_spec createAxis _ loglinear_cell A Idx sh2 levels
                lvl); [apply loglinear_formula_cellwise|..].
Qed.

(** C9.  The test for a missing bracket compares the recorded lower
    coordinate with [-1].  In a column whose last bracket has a lower
    coordinate equal to [-1], and without exact match, the output cell is
    masked under both formulas, although a bracket was found. *)
Theorem sentinel_collision_masked A Idx sh2 levels lvl g ilev lev c i hi lo :
  feq (fmul neg_one one) neg_one = true →
  has_columns sh2 Idx → has_columns sh2 A → length Idx ≤ length A →
  createAxis AutoOff (levels_prologue levels).2 = Ok lvl →
  (levels_prologue levels).2 !! ilev = Some lev → c < sh2 →
  let I := λ j, cell_at Idx j c in
  1 ≤ i → i < length Idx →
  I i = Some hi → I (i - 1) = Some lo →
  fge hi lev = true → fle lo lev = true →
  feq lo neg_one = true →
  (∀ j, i < j → j < length Idx → brackets lev I j ≠ Some true) →
  (∀ j, 1 ≤ j → j < length Idx → matches lev I j ≠ Some true) →
  output_cell (linearInterpolation createAxis A Idx levels g) ilev c
  = Some None
  ∧ output_cell (logLinearInterpolation createAxis A Idx levels g) ilev c
    = Some None.
Proof.
  intros Hsent HI HA Hlen Hax Hlev Hc I H1 Hn Hhi Hlo Hge Hle Hm1 Hlater Hno.
  destruct (entry_points_cells A Idx sh2 levels lvl g ilev lev c)
    as [-> ->]; [done|done|lia|done..|].
  assert (unbracketed (column_search lev I (λ j, cell_at A j c) (length Idx))).
  { eapply column_search_sentinel_bracket; try done.
    by eapply brackets_true. }
  split; f_equal; apply column_out_masked; try done.
  - intros s. apply linear_cell_unbracketed.
  - by apply column_search_no_match.
  - intros s. apply loglinear_cell_unbracketed.
  - by apply column_search_no_match.
Qed.

(** C3.  For a level above every valid coordinate of a column, or below
    every one of them, the call returns and the output cell is masked,
    under both formulas: nothing is raised and no number surfaces. *)
Theorem out_of_range_masked A Idx sh2 levels lvl g ilev lev c :
  NumOrder →
  has_columns sh2 Idx → has_columns sh2 A →
  0 < length Idx → length Idx ≤ length A →
  createAxis AutoOff (levels_prologue levels).2 = Ok lvl →
  (levels_prologue levels).2 !! ilev = Some lev → c < sh2 →
  out_of_range lev (λ j, cell_at Idx j c) (length Idx) →
  (∃ v, linearInterpolation createAxis A Idx levels g = (Ok v, g)
        ∧ output_cell (linearInterpolation createAxis A Idx levels g) ilev c
          = Some None)
  ∧ (∃ v, logLinearInterpolation createAxis A Idx levels g = (Ok v, g)
          ∧ output_cell (logLinearInterpolation createAxis A Idx levels g)
                        ilev c
            = Some None).
Proof.
  intros Hord HI HA Hpos Hlen Hax Hlev Hc Hout.
  destruct (entry_points_cells A Idx sh2 levels lvl g ilev lev c)
    as [-> ->]; [done..|].
  set (I := λ j, cell_at Idx j c) in *.
  assert (Hnb : ∀ j, 1 ≤ j → j < length Idx → brackets lev I j ≠ Some true).
  { intros j H1 Hn. unfold brackets.
    destruct (I j) as [x|] eqn:Hx; [|done].
    destruct (I (j - 1)) as [y|] eqn:Hy; [|done]. cbn.
    destruct Hout as [Hup|Hdown].
    - rewrite (flt_not_fge Hord x lev); [done|]. by eapply Hup.
    - rewrite (flt_not_fle Hord lev y); [by rewrite andb_false_r|].
      eapply Hdown; [|done]. lia. }
  assert (Hnm : ∀ j, 1 ≤ j → j < length Idx → matches lev I j ≠ Some true).
  { intros j H1 Hn. unfold matches.
    destruct (I j) as [x|] eqn:Hx; [|done]. cbn.
    destruct Hout as [Hup|Hdown].
    - rewrite (flt_not_feq_l Hord x lev); [done|]. by eapply Hup.
    - rewrite (flt_not_feq_r Hord lev x); [done|]. by eapply Hdown. }
  pose proof (sentinel_feq Hord) as Hsent.
  split; (eexists; split;
    [by eapply (interpolation_spec createAxis);
       [apply linear_formula_cellwise || apply loglinear_formula_cellwise|..]
    |f_equal; apply column_out_masked;
       [intros s; apply linear_cell_unbracketed
                  || apply loglinear_cell_unbracketed
       |by apply column_search_no_bracket
       |by apply column_search_no_match]]).
Qed.

(** C7.  A bare number given for [levels] is turned into the one-element
    list holding it, and the call goes on as with that list: both entry
    points return for the number exactly what they return for the list. *)
Theorem scalar_levels_normalized A Idx (x : F) :
  levels_prologue (Scalar x) = (1, [x])
  ∧ linearInterpolation createAxis A Idx (Scalar x)
    = linearInterpolation createAxis A Idx (Sequence [x])
  ∧ logLinearInterpolation createAxis A Idx (Scalar x)
    = logLinearInterpolation createAxis A Idx (Sequence [x]).
Proof. done. Qed.

(** C10.  Every valid cell of the variable returned by either entry
    point is the float32 cast of a number: each slice is cast before it
    is stored, whatever the precision of the inputs. *)
Theorem output_is_float32 A Idx levels g ilev c x :
  (output_cell (linearInterpolation createAxis A Idx levels g) ilev c
   = Some (Some x) → ∃ y, x = astype_float32 y)
  ∧ (output_cell (logLinearInterpolation createAxis A Idx levels g) ilev c
     = Some (Some x) → ∃ y, x = astype_float32 y).
Proof.
  assert (Hany : ∀ formula,
    output_cell (interpolation createAxis formula A Idx levels g) ilev c
    = Some (Some x) → ∃ y, x = astype_float32 y).
  { intros formula. unfold output_cell, interpolation.
    destruct (levels_prologue levels) as [nlev levels'].
    unfold mbind, M_bind, lift.
    destruct (getitem Idx 0) as [Idx0|]; [|done].
    destruct (level_loop _ _ _ _ _ _ _ _) as [t|] eqn:Ht; [|done].
    cbn. destruct (createAxis AutoOff levels') as [lvl|]; [|done].
    cbn. destruct (setAxisList A _); [cbn|done].
    apply level_loop_cast in Ht as [Hlen Hrows].
    rewrite length_replicate in Hlen.
    destruct (t !! ilev) as [r|] eqn:Hr; [cbn|done].
    intros Hc. eapply Hrows; [|done..].
    apply lookup_lt_Some in Hr. lia. }
  split; apply Hany.
Qed.

(** C5, amended.  The entry points read the auto-bounds mode, switch it
    off, build the level axis and write the mode back, in four lines that
    nothing guards.  So, for every input and every axis constructor, on
    every exit path of both entry points the mode after the call is the
    mode before it, except on the path where the construction of the axis
    itself raises: the call then ends with that very error and with the
    mode off.  A call that returns carries the axis that was built with
    the mode off.  And the exception is real: on arrays of one shape the
    loop over the levels cannot fail, so that whenever the constructor
    raises, the call ends with its error and the mode off. *)
Theorem autobounds_restored A Idx levels g :
  let lv := (levels_prologue levels).2 in
  let scoped (r : result (variable F) * autobounds) :=
    (r.2 = g
     ∨ ∃ e, createAxis AutoOff lv = Raise e ∧ r = (Raise e, AutoOff))
    ∧ (∀ v, r.1 = Ok v →
            r.2 = g ∧ createAxis AutoOff lv = Ok (var_plev v))
    ∧ (∀ sh2 e,
         has_columns sh2 Idx → has_columns sh2 A →
         0 < length Idx → length Idx ≤ length A →
         createAxis AutoOff lv = Raise e → r = (Raise e, AutoOff)) in
  scoped (linearInterpolation createAxis A Idx levels g)
  ∧ scoped (logLinearInterpolation createAxis A Idx levels g).
Proof.
  intros lv scoped.
  assert (Hany : ∀ formula fcell, cellwise formula fcell →
    scoped (interpolation createAxis formula A Idx levels g)).
  { intros formula fcell Hf. unfold scoped, lv. split_and!.
    - unfold interpolation.
      destruct (levels_prologue levels) as [nlev levels'].
      unfold mbind, M_bind, lift.
      destruct (getitem Idx 0) as [Idx0|]; [|by left].
      destruct (level_loop _ _ _ _ _ _ _ _) as [t|]; [|by left].
      cbn. destruct (createAxis AutoOff levels') as [lvl|e]; cbn.
      + destruct (setAxisList A _); by left.
      + right. by exists e.
    - unfold interpolation.
      destruct (levels_prologue levels) as [nlev levels'].
      unfold mbind, M_bind, lift.
      destruct (getitem Idx 0) as [Idx0|]; [|done].
      destruct (level_loop _ _ _ _ _ _ _ _) as [t|]; [|done].
      cbn. destruct (createAxis AutoOff levels') as [lvl|e]; cbn; [|done].
      destruct (setAxisList A _); cbn; [|done]. by intros v [= <-].
    - intros sh2 e HI HA Hpos Hlen Hax. unfold interpolation.
      pose proof (levels_prologue_length levels) as Hnlev.
      destruct (levels_prologue levels) as [nlev levels'].
      cbn in Hnlev, Hax. subst nlev.
      unfold mbind, M_bind, lift.
      rewrite (getitem_cell_at Idx sh2) by done.
      rewrite length_fmap, length_seq.
      rewrite (level_loop_spec formula fcell)
        by (done || by rewrite length_replicate).
      cbn. by rewrite Hax. }
  split.
  - apply (Hany _ _ linear_formula_cellwise).
  - apply (Hany _ _ loglinear_formula_cellwise).
Qed.

(** C8, amended.  Take for [levels] the coordinates of a column.  At every
    index [k >= 1] whose coordinate is not met again further down and
    whose [A[k]] is valid, [Ieq] holds [A[k]], and the output cell at
    level [k] is [A[k]] cast to float32 under both formulas. *)
Theorem round_trip_exact A Idx sh2 lv lvl g c k x v :
  has_columns sh2 Idx → has_columns sh2 A → length Idx ≤ length A →
  createAxis AutoOff lv = Ok lvl →
  c < sh2 →
  length lv = length Idx →
  (∀ j y, lv !! j = Some y → cell_at Idx j c = Some y) →
  1 ≤ k → lv !! k = Some x → feq x x = true →
  (∀ j y, k < j → lv !! j = Some y → feq y x = false) →
  cell_at A k c = Some v →
  (∃ s, bracket_search A Idx (length Idx) sh2 x = Ok s
        ∧ Ieq s !! c = Some (Some v))
  ∧ output_cell (linearInterpolation createAxis A Idx (Sequence lv) g) k c
    = Some (Some (astype_float32 v))
  ∧ output_cell (logLinearInterpolation createAxis A Idx (Sequence lv) g) k c
    = Some (Some (astype_float32 v)).
Proof.
  intros HI HA Hlen Hax Hc Hlv Hcol H1 Hx Hxx Hdistinct Hv.
  assert (Hk : k < length Idx).
  { apply lookup_lt_Some in Hx. lia. }
  set (I := λ j, cell_at Idx j c).
  assert (Hm : matches x I k = Some true).
  { unfold matches, I. by rewrite (Hcol k x Hx); cbn; rewrite Hxx. }
  assert (Hlater : ∀ j, k < j → j < length Idx → matches x I j = Some false).
  { intros j Hj Hn. destruct (lv !! j) as [y|] eqn:Hy.
    - unfold matches, I. rewrite (Hcol j y Hy). cbn.
      by rewrite (Hdistinct j y).
    - apply lookup_ge_None in Hy. lia. }
  split.
  { eexists. split; [by apply bracket_search_pack|].
    unfold pack. cbn [Ieq].
    rewrite list_lookup_fmap, lookup_seq_lt by done. cbn. f_equal.
    rewrite <- Hv.
    by apply (column_search_last_match x I (λ j, cell_at A j c)). }
  destruct (entry_points_cells A Idx sh2 (Sequence lv) lvl g k x c)
    as [-> ->]; [done|done|lia|done..|].
  split; f_equal; by eapply column_out_exact.
Qed.

End Claims.

(** ** Arrays of different widths *)

Section ShapeMismatch.
Context {F : Type} `{Num F} `{Log F}.
Variable createAxis : autobounds → list F → result (list F).
Implicit Types (A Idx : list (list (option F))) (lev : F).

Lemma foldM_ext {S X} (f1 f2 : S → X → result S) l s :
  (∀ s x, f1 s x = f2 s x) → foldM f1 l s = foldM f2 l s.
Proof.
  intros Hf. revert s. induction l as [|x l IH]; intros s; cbn; [done|].
  rewrite Hf. destruct (f2 s x); cbn; [apply IH|done].
Qed.

(** Slices that cannot be broadcast together. *)
Lemma MV2_where_no_broadcast {X} (c : list (option bool))
    (x y : list (option X)) :
  length y = length c → length x ≠ length c →
  length x ≠ 1 → length c ≠ 1 →
  MV2_where c x y = Raise ValueError.
Proof.
  intros Hy Hx Hx1 Hc1. unfold MV2_where, ma_where, broadcast_shape.
  repeat (case_decide; try lia; try done; cbn).
Qed.

(** A condition of one cell against a wider slice: numpy broadcasts the
    condition, and the result no longer fits the axes of the condition. *)
Lemma MV2_where_wider {X} (c : list (option bool)) (x y : list (option X)) :
  length c = 1 → length y = 1 → length x ≠ 1 →
  MV2_where c x y = Raise CDMSError.
Proof.
  intros Hc Hy Hx.
  destruct c as [|c0 [|]]; [done| |done].
  destruct y as [|y0 [|]]; [done| |done].
  unfold MV2_where, ma_where, broadcast_shape, broadcast_to. cbn [length].
  repeat (case_decide; try lia; cbn); [|done].
  rewrite length_zip_with, length_zip_with, !length_replicate in *. lia.
Qed.

(** A slice of one cell against a wider condition: the cell is repeated. *)
Lemma MV2_where_one {X Y} (gc : X → option bool) (x : option Y)
    (gy : X → option Y) (l : list X) :
  length l ≠ 1 →
  MV2_where (gc <$> l) [x] (gy <$> l)
  = Ok ((λ c, where_cell (gc c) x (gy c)) <$> l).
Proof.
  intros Hl. rewrite <- (MV2_where_fmap gc (λ _, x) gy l).
  rewrite (const_fmap (λ _, x) l x) by done.
  unfold MV2_where, ma_where, broadcast_shape, broadcast_to.
  rewrite !length_fmap, !length_replicate. cbn [length].
  repeat (case_decide; try lia; try done; cbn).
Qed.

Lemma broadcast_columns_length m A :
  length (broadcast_columns m A) = length A.
Proof. apply length_fmap. Qed.

Lemma broadcast_columns_has m A :
  has_columns 1 A → has_columns m (broadcast_columns m A).
Proof.
  intros HA. unfold has_columns, broadcast_columns.
  rewrite Forall_fmap. eapply Forall_impl; [exact HA|].
  intros [|x [|]]; cbn; try done. intros _. apply length_replicate.
Qed.

Lemma broadcast_columns_cell m A j c :
  has_columns 1 A → c < m →
  cell_at (broadcast_columns m A) j c = cell_at A j 0.
Proof.
  intros HA Hc. unfold cell_at, broadcast_columns.
  rewrite list_lookup_fmap.
  destruct (A !! j) as [r|] eqn:Hr; [cbn|done].
  pose proof (Forall_lookup_1 _ _ _ _ HA Hr) as Hl.
  destruct r as [|x [|]]; [done| |done]. cbn.
  by rewrite lookup_replicate_2.
Qed.

Lemma pack_ext m (f1 f2 : nat → bracket_cell (F:=F)) :
  (∀ c, c < m → f1 c = f2 c) → pack (seq 0 m) f1 = pack (seq 0 m) f2.
Proof.
  intros Hf. unfold pack.
  f_equal; apply list_fmap_ext; intros k c [-> Hc]%lookup_seq;
    by rewrite Hf.
Qed.

(** One pass of the scan on a field of one column. *)
Lemma bracket_step_one_column A Idx m lev f i :
  has_columns m Idx → has_columns 1 A → m ≠ 1 →
  i < length Idx → i < length A →
  bracket_step A Idx lev (pack (seq 0 m) f) i
  = bracket_step (broadcast_columns m A) Idx lev (pack (seq 0 m) f) i.
Proof.
  intros HI HA Hm Hi Hi'.
  rewrite (bracket_step_pack (broadcast_columns m A) Idx m)
    by (done || by apply broadcast_columns_has
             || by rewrite broadcast_columns_length).
  unfold bracket_step.
  rewrite !(getitem_cell_at Idx m) by (done || lia). cbn.
  rewrite !(getitem_cell_at A 1) by (done || lia). cbn.
  unfold ma_logical_and, ma_greater_equal, ma_less_equal, ma_equal.
  rewrite <- !list_fmap_compose, ma_binary_fmap. cbn.
  rewrite !MV2_where_fmap. cbn.
  rewrite !MV2_where_one by (by rewrite length_seq). cbn.
  f_equal. symmetry.
  etrans; [apply (pack_ext m _
                    (λ c, column_step lev (λ j, cell_at Idx j c)
                                      (λ j, cell_at A j 0) (f c) i))
          |reflexivity].
  intros c Hc. unfold column_step. by rewrite !broadcast_columns_cell.
Qed.

Lemma bracket_foldM_one_column A Idx m lev idxs : ∀ f,
  has_columns m Idx → has_columns 1 A → m ≠ 1 →
  Forall (λ i, i < length Idx ∧ i < length A) idxs →
  foldM (bracket_step A Idx lev) idxs (pack (seq 0 m) f)
  = foldM (bracket_step (broadcast_columns m A) Idx lev) idxs
          (pack (seq 0 m) f).
Proof.
  induction idxs as [|i idxs IH]; intros f HI HA Hm Hidx; [done|].
  apply Forall_cons in Hidx as [[Hi Hi'] Hidx]. cbn.
  rewrite bracket_step_one_column by done.
  rewrite (bracket_step_pack (broadcast_columns m A) Idx m)
    by (done || by apply broadcast_columns_has
             || by rewrite broadcast_columns_length).
  cbn. by apply IH.
Qed.

(** The level loop reads a field of one column as that column repeated. *)
Lemma level_loop_one_column formula A Idx m n levels t :
  has_columns m Idx → has_columns 1 A → m ≠ 1 → length Idx ≤ length A →
  level_loop formula A Idx (length Idx) m n levels t
  = level_loop formula (broadcast_columns m A) Idx (length Idx) m n levels t.
Proof.
  intros HI HA Hm Hlen. unfold level_loop. apply foldM_ext.
  intros t' ilev. destruct (levels !! ilev) as [lev|]; [cbn|done].
  unfold level_slice, bracket_search.
  rewrite bracket_init_pack, bracket_foldM_one_column; [done..|].
  apply Forall_forall. intros i Hi%elem_of_seq. lia.
Qed.

(** The first pass of the scan on slices of different widths. *)
Lemma bracket_step_mismatch A Idx n m lev f i :
  has_columns m Idx → has_columns n A → n ≠ m →
  i < length Idx → i < length A →
  (n ≠ 1 → m ≠ 1 →
   bracket_step A Idx lev (pack (seq 0 m) f) i = Raise ValueError)
  ∧ (m = 1 →
     bracket_step A Idx lev (pack (seq 0 m) f) i = Raise CDMSError).
Proof.
  intros HI HA Hne Hi Hi'. unfold bracket_step.
  rewrite !(getitem_cell_at Idx m) by (done || lia). cbn.
  rewrite !(getitem_cell_at A n) by (done || lia). cbn.
  unfold ma_logical_and, ma_greater_equal, ma_less_equal.
  rewrite <- !list_fmap_compose, ma_binary_fmap. cbn.
  rewrite !MV2_where_fmap. cbn. split.
  - intros Hn1 Hm1.
    rewrite (MV2_where_no_broadcast _ (cell_at A i <$> seq 0 n)
               ((λ c, cAabv (f c)) <$> seq 0 m)); [done|..];
      rewrite ?length_fmap, ?length_seq; done.
  - intros Hm1.
    rewrite (MV2_where_wider _ (cell_at A i <$> seq 0 n)
               ((λ c, cAabv (f c)) <$> seq 0 m)); [done|..];
      rewrite ?length_fmap, ?length_seq; lia.
Qed.

Lemma level_loop_mismatch formula A Idx n m nlev lev levels t :
  has_columns m Idx → has_columns n A → n ≠ m →
  2 ≤ length Idx → 2 ≤ length A →
  (n ≠ 1 → m ≠ 1 →
   level_loop formula A Idx (length Idx) m (S nlev) (lev :: levels) t
   = Raise ValueError)
  ∧ (m = 1 →
     level_loop formula A Idx (length Idx) m (S nlev) (lev :: levels) t
     = Raise CDMSError).
Proof.
  intros HI HA Hne HnI HnA.
  destruct (bracket_step_mismatch A Idx n m lev (λ _, column_init) 1)
    as [Hv Hc]; [done..|lia|lia|].
  assert (Hseq : seq 1 (length Idx - 1) = 1 :: seq 2 (length Idx - 2)).
  { destruct (length Idx) as [|[|k]]; [lia..|]. cbn.
    by rewrite Nat.sub_0_r. }
  unfold level_loop. cbn [seq foldM lookup list_lookup]. cbn [mbind result_bind].
  unfold level_slice, bracket_search.
  rewrite Hseq, bracket_init_pack. cbn [foldM].
  split.
  - intros Hn1 Hm1. by rewrite Hv.
  - intros Hm1. by rewrite Hc.
Qed.

(** C6, amended.  The code has no check of the shapes: a mismatch shows
    only through the library calls.  For a field of [n] columns and
    coordinates of [m] columns, [n <> m], each with a level, both entry
    points raise and return no variable.  Which error, and when, depends
    on the widths.  When the scan runs a pass (two levels or more, a
    level to interpolate to): if neither width is one, numpy refuses to
    broadcast in the first pass of the first level; if the coordinates
    have one column, [MV2.where] raises there, its result no longer
    fitting the axes of the condition.  If the field has one column, it is
    broadcast: the loop over the levels runs to its end on the column
    repeated [m] times, and the call fails only afterwards, with the
    error of the axis constructor (and the mode off) if that one raises,
    with the axis-length error of [setAxisList] otherwise. *)
Theorem shape_mismatch_raises A Idx n m levels g :
  has_columns m Idx → has_columns n A → n ≠ m →
  0 < length Idx → 0 < length A →
  let lv := (levels_prologue levels).2 in
  let lin := linearInterpolation createAxis A Idx levels g in
  let log := logLinearInterpolation createAxis A Idx levels g in
  (raises lin.1 ∧ raises log.1)
  ∧ (2 ≤ length Idx → 2 ≤ length A → 0 < length lv →
     (n ≠ 1 → m ≠ 1 →
      lin = (Raise ValueError, g) ∧ log = (Raise ValueError, g))
     ∧ (m = 1 →
        lin = (Raise CDMSError, g) ∧ log = (Raise CDMSError, g)))
  ∧ (n = 1 → length Idx ≤ length A →
     let t0 := replicate (length lv) (replicate m (Some zero)) in
     let late := match createAxis AutoOff lv with
                 | Ok _ => (Raise CDMSError, g)
                 | Raise e => (Raise e, AutoOff)
                 end in
     level_loop linear_formula A Idx (length Idx) m (length lv) lv t0
     = Ok (slice_of linear_cell (broadcast_columns m A) Idx m <$> lv)
     ∧ level_loop loglinear_formula A Idx (length Idx) m (length lv) lv t0
       = Ok (slice_of loglinear_cell (broadcast_columns m A) Idx m <$> lv)
     ∧ lin = late ∧ log = late).
Proof.
  intros HI HA Hne HpI HpA lv lin log.
  pose proof (levels_prologue_length levels) as Hnlev.
  assert (Hcols : ncols A ≠ m).
  { destruct A as [|r A']; [cbn in HpA; lia|].
    apply Forall_cons in HA as [Hr _]. cbn. lia. }
  assert (Hget : getitem Idx 0 = Ok (cell_at Idx 0 <$> seq 0 m)).
  { by apply getitem_cell_at. }
  assert (Hany : ∀ formula,
    interpolation createAxis formula A Idx levels g
    = match level_loop formula A Idx (length Idx) m (length lv) lv
              (replicate (length lv) (replicate m (Some zero))) with
      | Raise e => (Raise e, g)
      | Ok _ => match createAxis AutoOff lv with
                | Ok _ => (Raise CDMSError, g)
                | Raise e => (Raise e, AutoOff)
                end
      end).
  { intros formula. unfold interpolation, lv.
    destruct (levels_prologue levels) as [nlev levels'].
    cbn in Hnlev. subst nlev. cbn [snd].
    unfold mbind, M_bind, lift. rewrite Hget, length_fmap, length_seq.
    destruct (level_loop _ _ _ _ _ _ _ _) as [t|]; [|done].
    cbn. destruct (createAxis AutoOff levels') as [lvl|]; [|done].
    cbn. unfold setAxisList. by rewrite decide_False. }
  split_and!.
  - unfold lin, linearInterpolation. rewrite Hany.
    destruct (level_loop _ _ _ _ _ _ _ _); [|by eexists].
    destruct (createAxis _ _); by eexists.
  - unfold log, logLinearInterpolation. rewrite Hany.
    destruct (level_loop _ _ _ _ _ _ _ _); [|by eexists].
    destruct (createAxis _ _); by eexists.
  - intros HnI HnA Hlv.
    destruct lv as [|lev lv'] eqn:Hlv'; [cbn in Hlv; lia|].
    assert (Hloop : ∀ formula,
      (n ≠ 1 → m ≠ 1 →
       interpolation createAxis formula A Idx levels g
       = (Raise ValueError, g))
      ∧ (m = 1 →
         interpolation createAxis formula A Idx levels g
         = (Raise CDMSError, g))).
    { intros formula. rewrite Hany. cbn [length].
      destruct (level_loop_mismatch formula A Idx n m (length lv') lev lv'
                  (replicate (S (length lv')) (replicate m (Some zero))))
        as [Hv Hc]; [done..|].
      split.
      - intros Hn1 Hm1. by rewrite Hv.
      - intros Hm1. by rewrite Hc. }
    destruct (Hloop linear_formula) as [Hv1 Hc1].
    destruct (Hloop loglinear_formula) as [Hv2 Hc2].
    split; [intros Hn1 Hm1|intros Hm1]; split; auto.
  - intros -> Hlen t0 late.
    assert (Hloop : ∀ formula fcell, cellwise formula fcell →
      level_loop formula A Idx (length Idx) m (length lv) lv t0
      = Ok (slice_of fcell (broadcast_columns m A) Idx m <$> lv)).
    { intros formula fcell Hf.
      rewrite level_loop_one_column by done.
      apply level_loop_spec; [done|done|by apply broadcast_columns_has| |].
      - by rewrite broadcast_columns_length.
      - unfold t0. by rewrite length_replicate. }
    pose proof (Hloop _ _ linear_formula_cellwise) as H1.
    pose proof (Hloop _ _ loglinear_formula_cellwise) as H2.
    split_and!; [done|done| |].
    + unfold lin, linearInterpolation. rewrite Hany. fold t0.
      by rewrite H1.
    + unfold log, logLinearInterpolation. rewrite Hany. fold t0.
      by rewrite H2.
Qed.

End ShapeMismatch.

(** ** Doubles are ordered *)

Section F64Order.

Lemma SFcompare_swap (x y : spec_float) :
  SFcompare y x = CompOpp <$> SFcompare x y.
Proof.
  destruct x as [sx|sx| |sx mx ex], y as [sy|sy| |sy my ey]; cbn;
    try done; try (by destruct sx); try (by destruct sy);
    try (by destruct sx, sy).
  destruct sx, sy; cbn; try done.
  - rewrite (Z.compare_antisym ex ey).
    destruct (ex ?= ey)%Z; cbn; try done.
    by rewrite CompOpp_involutive, Pos.compare_cont_antisym.
  - rewrite (Z.compare_antisym ex ey).
    destruct (ex ?= ey)%Z; cbn; try done.
    by rewrite Pos.compare_cont_antisym.
Qed.

Lemma F64_order : NumOrder (F:=F64.t).
Proof.
  split; cbn; unfold SFltb, SFleb, SFeqb.
  - intros x y. rewrite (SFcompare_swap x y).
    by destruct (SFcompare x y) as [[]|].
  - intros x y. rewrite (SFcompare_swap x y).
    by destruct (SFcompare x y) as [[]|].
  - intros x y. by destruct (SFcompare x y) as [[]|].
  - intros x y. rewrite (SFcompare_swap x y).
    by destruct (SFcompare x y) as [[]|].
  - by vm_compute.
Qed.

End F64Order.

(** ** Inputs on doubles at which stated properties fail *)

Section Doubles.
Import F64.
Local Open Scope Z_scope.

(** C1 fails as stated.  (a) In a column of a single level whose
    coordinate is the target level, the scan has no index to visit and
    the output is masked, not the field value.  (b) When two levels of a
    column carry the target coordinate, the later one gives the output.
    (c) A field value that is no float32 is not returned as it is. *)
Lemma exact_match_counterexample :
  (cell_at [cells [5]] 0 0 = Some (of_Z 5)
   ∧ feq (of_Z 5) (of_Z 5) = true
   ∧ cell_at [cells [10]] 0 0 = Some (of_Z 10)
   ∧ output_cell (linearInterpolation Sample.createAxis [cells [10]]
                    [cells [5]] (Sequence [of_Z 5]) AutoOn) 0%nat 0%nat
     = Some None)
  ∧ (cell_at [cells [1]; cells [5]; cells [5]] 1 0 = Some (of_Z 5)
     ∧ cell_at [cells [10]; cells [20]; cells [30]] 1 0 = Some (of_Z 20)
     ∧ output_cell (linearInterpolation Sample.createAxis
                      [cells [10]; cells [20]; cells [30]]
                      [cells [1]; cells [5]; cells [5]]
                      (Sequence [of_Z 5]) AutoOn) 0%nat 0%nat
       = Some (Some (of_Z 30))
     ∧ feq (of_Z 30) (of_Z 20) = false)
  ∧ (let tenth := fdiv (of_Z 1) (of_Z 10) in
     cell_at Sample.Idx 1 0 = Some (of_Z 50000)
     ∧ output_cell (linearInterpolation Sample.createAxis
                      [cells [1]; [Some tenth]; cells [3]]
                      Sample.Idx (Sequence [of_Z 50000]) AutoOn) 0%nat 0%nat
       = Some (Some (to_float32 tenth))
     ∧ feq (to_float32 tenth) tenth = false).
Proof. vm_compute. repeat split; reflexivity. Qed.

(** C8 fails as stated.  (a) With the coordinates of the worked column as
    levels, [Ieq] is masked at the top level: the value returned there is
    the one the interpolation formula computes.  (b) A column of a single
    level is not reproduced at all: the output is masked. *)
Lemma round_trip_counterexample :
  (let levels := [of_Z 20000; of_Z 50000; of_Z 100000] in
   (∃ s, bracket_search Sample.A Sample.Idx 3 1 (of_Z 20000) = Ok s
         ∧ Ieq s = [None]
         ∧ linear_formula (of_Z 20000) s = Ok [Some (of_Z 1)])
   ∧ output_cell (linearInterpolation Sample.createAxis Sample.A Sample.Idx
                    (Sequence levels) AutoOn) 0%nat 0%nat
     = Some (Some (of_Z 1)))
  ∧ (cell_at [cells [7]] 0 0 = Some (of_Z 7)
     ∧ cell_at [cells [3]] 0 0 = Some (of_Z 3)
     ∧ output_cell (linearInterpolation Sample.createAxis [cells [3]]
                      [cells [7]] (Sequence [of_Z 7]) AutoOn) 0%nat 0%nat
       = Some None).
Proof.
  split; [split|]; [eexists; split; [vm_compute; reflexivity|]|..];
    vm_compute; repeat split; reflexivity.
Qed.

(** C5 fails as stated: when the construction of the axis raises, the
    call ends with the auto-bounds mode off, not with the mode it
    started from. *)
Lemma autobounds_counterexample :
  linearInterpolation Sample.failingAxis Sample.A Sample.Idx
                      (Scalar (of_Z 75000)) AutoOn
  = (Raise CDMSError, AutoOff).
Proof. vm_compute. reflexivity. Qed.

(** C6 fails as stated.  (a) A shape mismatch in the non-vertical part is
    not the only fatal condition: with one column each, and a field of
    fewer levels than the coordinate, the call raises an index error.
    (b) Nor is the mismatch caught at once: a field of one column against
    coordinates of two columns is broadcast, the loop over the levels
    runs to its end, and only the assignment of the axes raises. *)
Lemma shape_counterexample :
  (ncols [cells [1]] = ncols Sample.Idx
   ∧ linearInterpolation Sample.createAxis [cells [1]] Sample.Idx
                         (Scalar (of_Z 75000)) AutoOn
     = (Raise IndexError, AutoOn))
  ∧ (let Idx2 := [cells [20000; 30000]; cells [50000; 60000];
                  cells [100000; 110000]] in
     ncols Sample.A = 1%nat ∧ ncols Idx2 = 2%nat
     ∧ (∃ t, level_loop linear_formula Sample.A Idx2 3 2 1 [of_Z 75000]
                        [[Some zero; Some zero]] = Ok t)
     ∧ linearInterpolation Sample.createAxis Sample.A Idx2
                           (Scalar (of_Z 75000)) AutoOn
       = (Raise CDMSError, AutoOn)).
Proof.
  split; [by vm_compute|]. cbn zeta. split_and!; [done|done| |by vm_compute].
  eexists. by vm_compute.
Qed.

End Doubles.

(** ** The program on real numbers *)

Section Reals.
Local Open Scope R_scope.

Lemma real_geb_true (x y : R) : y <= x → Real.geb x y = true.
Proof. intros. unfold Real.geb. by destruct (Rle_dec y x). Qed.

Lemma real_geb_false (x y : R) : x < y → Real.geb x y = false.
Proof. intros. unfold Real.geb. destruct (Rle_dec y x); [lra|done]. Qed.

Lemma real_leb_true (x y : R) : x <= y → Real.leb x y = true.
Proof. intros. unfold Real.leb. by destruct (Rle_dec x y). Qed.

Lemma real_leb_false (x y : R) : y < x → Real.leb x y = false.
Proof. intros. unfold Real.leb. destruct (Rle_dec x y); [lra|done]. Qed.

Lemma real_eqb_true (x y : R) : x = y → Real.eqb x y = true.
Proof. intros. unfold Real.eqb. by destruct (Req_dec_T x y). Qed.

Lemma real_eqb_false (x y : R) : x ≠ y → Real.eqb x y = false.
Proof. intros. unfold Real.eqb. by destruct (Req_dec_T x y). Qed.

Lemma real_ltb_true (x y : R) : Real.ltb x y = true → x < y.
Proof. unfold Real.ltb. by destruct (Rlt_dec x y). Qed.

Lemma Real_order : NumOrder (F:=R).
Proof.
  split; cbn.
  - intros x y Hlt%real_ltb_true. by apply real_geb_false.
  - intros x y Hlt%real_ltb_true. by apply real_leb_false.
  - intros x y Hlt%real_ltb_true. apply real_eqb_false. lra.
  - intros x y Hlt%real_ltb_true. apply real_eqb_false. lra.
  - apply real_eqb_true. lra.
Qed.

Lemma real_tiny_le : Real.tiny <= / 4.
Proof.
  unfold Real.tiny. apply Rinv_le_contravar; [lra|].
  replace 4 with (2 ^ 2) by lra. apply Rle_pow; [lra|lia].
Qed.

Lemma real_tiny_pos : 0 < Real.tiny.
Proof. unfold Real.tiny. apply Rinv_0_lt_compat, pow_lt. lra. Qed.

(** A quotient of positive numbers of comparable size is not masked. *)
Lemma real_divide_cell (a b : R) :
  0 < b → 0 <= a → a <= 2 * b → divide_cell a b = Some (a / b).
Proof.
  intros Hb Ha Hab. unfold divide_cell. cbn.
  rewrite real_leb_false; [done|].
  rewrite (Rabs_pos_eq a), (Rabs_pos_eq b) by lra.
  pose proof real_tiny_le. pose proof real_tiny_pos.
  assert (a * Real.tiny <= 2 * b * / 4) by (apply Rmult_le_compat; lra).
  lra.
Qed.

Lemma real_log_cell (x : R) : 0 < x → log_cell (Some x) = Some (ln x).
Proof. intros Hx. cbn. by rewrite real_leb_false. Qed.

Lemma ln_2_pos : 0 < ln 2.
Proof. rewrite <- ln_1. apply ln_increasing; lra. Qed.

Lemma ln_IZR_pow (b n : Z) :
  (0 < b)%Z → (0 <= n)%Z → ln (IZR (b ^ n)) = IZR n * ln (IZR b).
Proof.
  intros Hb Hn. rewrite <- (Z2Nat.id n) at 1 by done.
  rewrite <- pow_IZR, ln_pow by (by apply IZR_lt).
  by rewrite INR_IZR_INZ, Z2Nat.id.
Qed.

(** [2^1584 < 3^1000 < 2^1586]. *)
Lemma ln_3_bounds : 1584 * ln 2 < 1000 * ln 3 < 1586 * ln 2.
Proof.
  rewrite <- !ln_IZR_pow by done.
  split; (apply ln_increasing;
    [apply IZR_lt; by vm_compute | apply IZR_lt; by vm_compute]).
Qed.

Lemma ln_three_halves : ln (3 / 2) = ln 3 - ln 2.
Proof. unfold Rdiv. rewrite ln_mult, ln_Rinv by lra. lra. Qed.

Lemma log2_three_halves : 0.584 < ln (3 / 2) / ln 2 < 0.586.
Proof.
  pose proof ln_2_pos as H2. pose proof ln_3_bounds as [Hlo Hhi].
  rewrite ln_three_halves. split.
  - apply Rmult_lt_reg_r with (ln 2); [done|].
    unfold Rdiv. rewrite Rmult_assoc, Rinv_l by lra. lra.
  - apply Rmult_lt_reg_r with (ln 2); [done|].
    unfold Rdiv. rewrite Rmult_assoc, Rinv_l by lra. lra.
Qed.

End Reals.

(** ** The worked scenario *)

Section Worked.

Lemma worked_real_search :
  let s := column_search (F:=R) 75000%R (λ j, cell_at Sample.IdxR j 0)
                         (λ j, cell_at Sample.AR j 0) 3 in
  cIabv s = Some 100000%R ∧ cAabv s = Some 3%R
  ∧ cIbel s = Some 50000%R ∧ cAbel s = Some 2%R ∧ cIeq s = None.
Proof.
  cbn zeta.
  destruct (column_search_last_bracket (F:=R) 75000%R
              (λ j, cell_at Sample.IdxR j 0) (λ j, cell_at Sample.AR j 0) 3 2)
    as (-> & -> & -> & ->); [lia|lia| |intros; lia|].
  { eapply brackets_true; [done|done|..]; cbn.
    - apply real_geb_true. lra.
    - apply real_leb_true. lra. }
  split_and!; [done..|].
  apply column_search_no_match.
  - apply (sentinel_feq Real_order).
  - intros j H1 Hn. assert (j = 1 ∨ j = 2) as [-> | ->] by lia;
      cbn; rewrite real_eqb_false; (done || lra).
Qed.

Lemma worked_real_linear g :
  output_cell (linearInterpolation Sample.createAxis Sample.AR Sample.IdxR
                 (Scalar 75000%R) g) 0 0
  = Some (Some 2.5%R).
Proof.
  destruct (entry_points_cells Sample.createAxis Sample.AR Sample.IdxR 1
              (Scalar 75000%R) [75000%R] g 0 75000%R 0) as [-> _];
    [repeat constructor..|].
  do 2 f_equal. unfold column_out. change (length Sample.IdxR) with 3.
  destruct worked_real_search as (HIa & HAa & HIb & HAb & HIe).
  rewrite HIe. unfold linear_cell. rewrite HIa, HAa, HIb, HAb.
  cbn. rewrite real_eqb_false by lra. cbn.
  rewrite real_divide_cell by lra. cbn. f_equal. lra.
Qed.

Lemma worked_real_loglinear g :
  output_cell (logLinearInterpolation Sample.createAxis Sample.AR
                 Sample.IdxR (Scalar 75000%R) g) 0 0
  = Some (Some (ln (3 / 2) / ln 2 * (3 - 2) + 2)%R).
Proof.
  destruct (entry_points_cells Sample.createAxis Sample.AR Sample.IdxR 1
              (Scalar 75000%R) [75000%R] g 0 75000%R 0) as [_ ->];
    [repeat constructor..|].
  do 2 f_equal. unfold column_out. change (length Sample.IdxR) with 3.
  destruct worked_real_search as (HIa & HAa & HIb & HAb & HIe).
  rewrite HIe. unfold loglinear_cell. rewrite HIa, HAa, HIb, HAb.
  unfold masked_level_cell. cbn [fmap option_fmap option_map].
  cbn [feq neg_one Real.num masked_where_cell fmul one].
  rewrite real_eqb_false by lra.
  unfold cell_div at 2 3. cbn [ma_cell2].
  rewrite !real_divide_cell by lra.
  replace (1 * 75000 / 50000)%R with (3 / 2)%R by lra.
  replace (100000 / 50000)%R with 2%R by lra.
  rewrite !real_log_cell by lra.
  pose proof ln_2_pos. pose proof log2_three_halves as [Hlo Hhi].
  assert (0 < ln (3 / 2) < ln 2)%R as [? ?].
  { split; [rewrite <- ln_1|]; apply ln_increasing; lra. }
  unfold cell_div. cbn [ma_cell2].
  rewrite real_divide_cell by lra. done.
Qed.

(** C2.  One column with coordinates 20000, 50000, 100000 and field
    values 1, 2, 3, and the single level 75000.  The bracket on record is
    [Iabv = 100000], [Ibel = 50000], [Aabv = 3], [Abel = 2], and
    [linearInterpolation] returns exactly 2.5, on doubles as on reals.
    [logLinearInterpolation] returns, on doubles, the float32 cast of the
    masked arithmetic [log(1.5) / log(2) * 1 + 2] for whatever [log] is;
    on reals it returns [ln(3/2) / ln 2 * (3 - 2) + 2], a number between
    2.584 and 2.586. *)
Theorem worked_scenario :
  bracket_search Sample.A Sample.Idx 3 1 (F64.of_Z 75000)
  = Ok {| Iabv := [Some (F64.of_Z 100000)]; Aabv := [Some (F64.of_Z 3)];
          Ibel := [Some (F64.of_Z 50000)]; Abel := [Some (F64.of_Z 2)];
          Ieq := [None] |}
  ∧ (∀ g, linearInterpolation Sample.createAxis Sample.A Sample.Idx
                              (Scalar (F64.of_Z 75000)) g
          = (Ok {| var_data := [[Some (F64.of_bits 5 (-1))]];
                   var_plev := [F64.of_Z 75000] |}, g))
  ∧ (∀ ln g,
       output_cell (logLinearInterpolation (H0:=F64.log_of ln)
                      Sample.createAxis Sample.A Sample.Idx
                      (Scalar (F64.of_Z 75000)) g) 0 0
       = Some (F64.to_float32 <$>
                 cell_add
                   (cell_mul
                      (cell_div
                         (log_cell (H0:=F64.log_of ln)
                                   (Some (F64.of_bits 3 (-1))))
                         (log_cell (H0:=F64.log_of ln)
                                   (Some (F64.of_Z 2))))
                      (Some (F64.of_Z 1)))
                   (Some (F64.of_Z 2))))
  ∧ (∀ g, output_cell (linearInterpolation Sample.createAxis Sample.AR
                         Sample.IdxR (Scalar 75000%R) g) 0 0
          = Some (Some 2.5%R))
  ∧ (∀ g, output_cell (logLinearInterpolation Sample.createAxis Sample.AR
                         Sample.IdxR (Scalar 75000%R) g) 0 0
          = Some (Some (ln (3 / 2) / ln 2 * (3 - 2) + 2)%R))
  ∧ (2.584 < ln (3 / 2) / ln 2 * (3 - 2) + 2 < 2.586)%R.
Proof.
  split_and!.
  - by vm_compute.
  - intros g. by vm_compute.
  - intros ln g. reflexivity.
  - apply worked_real_linear.
  - apply worked_real_loglinear.
  - pose proof log2_three_halves. lra.
  - pose proof log2_three_halves. lra.
Qed.

(** The other two worked levels on doubles: the level 50000 is met
    exactly and gives the field value 2, the level 150000 lies below the
    column and gives a masked cell, under both formulas and whatever
    [log] computes. *)
Lemma worked_exact_and_missing ln g :
  let levels := Sequence [F64.of_Z 50000; F64.of_Z 150000] in
  let lin := linearInterpolation Sample.createAxis Sample.A Sample.Idx
                                 levels g in
  let loglin := logLinearInterpolation (H0:=F64.log_of ln) Sample.createAxis
                                       Sample.A Sample.Idx levels g in
  output_cell lin 0 0 = Some (Some (F64.of_Z 2))
  ∧ output_cell lin 1 0 = Some None
  ∧ output_cell loglin 0 0 = Some (Some (F64.of_Z 2))
  ∧ output_cell loglin 1 0 = Some None.
Proof. cbn zeta. split_and!; reflexivity. Qed.

End Worked.

(** ** The theorems at sample inputs *)

Section Witnesses.
Local Open Scope R_scope.

Lemma real_ltb_intro (x y : R) : x < y → Real.ltb x y = true.
Proof. intros. unfold Real.ltb. by destruct (Rlt_dec x y). Qed.


Lemma exact_match_resolved_witness :
  output_cell (linearInterpolation Sample.createAxis Sample.AR Sample.IdxR
                 (Sequence [75000; 50000]) AutoOn) 1 0
  = Some (Some 2)
  ∧ output_cell (logLinearInterpolation Sample.createAxis Sample.AR
                   Sample.IdxR (Sequence [75000; 50000]) AutoOn) 1 0
    = Some (Some 2).
Proof.
  change (Some 2) with (Some (astype_float32 (F:=R) 2)).
  apply (exact_match_resolved Sample.createAxis Sample.AR Sample.IdxR 1
           (Sequence [75000; 50000]) [75000; 50000] AutoOn 1 50000 0 1
           50000 2);
    [repeat constructor..| | |].
  - apply real_eqb_true. reflexivity.
  - intros j H1 H3. assert (j = 2%nat) as -> by (cbn in H3; lia).
    cbn. rewrite real_eqb_false by lra. reflexivity.
  - reflexivity.
Defined.

(** A column whose upper level lies at −1: the level 2 is bracketed by
    −1 and 5, and the output is masked. *)
Lemma sentinel_collision_masked_witness :
  let Idx := [[Some (-1)]; [Some 5]] in
  let A := [[Some 10]; [Some 20]] in
  output_cell (linearInterpolation Sample.createAxis A Idx (Scalar 2)
                                   AutoOn) 0 0
  = Some None
  ∧ output_cell (logLinearInterpolation Sample.createAxis A Idx (Scalar 2)
                                        AutoOn) 0 0
    = Some None.
Proof.
  intros Idx A.
  apply (sentinel_collision_masked Sample.createAxis A Idx 1 (Scalar 2)
           [2] AutoOn 0 2 0 1 5 (-1));
    [apply (sentinel_feq Real_order)|repeat constructor..| | | | |].
  - apply real_geb_true. lra.
  - apply real_leb_true. lra.
  - apply real_eqb_true. reflexivity.
  - intros j H1 H2. cbn in H2. lia.
  - intros j H1 H2. assert (j = 1%nat) as -> by (cbn in H2; lia).
    cbn. rewrite real_eqb_false by lra. discriminate.
Defined.

Lemma out_of_range_masked_witness :
  (∃ v, linearInterpolation Sample.createAxis Sample.AR Sample.IdxR
                            (Scalar 150000) AutoOn = (Ok v, AutoOn)
        ∧ output_cell (linearInterpolation Sample.createAxis Sample.AR
                         Sample.IdxR (Scalar 150000) AutoOn) 0 0
          = Some None)
  ∧ (∃ v, logLinearInterpolation Sample.createAxis Sample.AR Sample.IdxR
                                 (Scalar 150000) AutoOn = (Ok v, AutoOn)
          ∧ output_cell (logLinearInterpolation Sample.createAxis Sample.AR
                           Sample.IdxR (Scalar 150000) AutoOn) 0 0
            = Some None).
Proof.
  apply (out_of_range_masked Sample.createAxis Sample.AR Sample.IdxR 1
           (Scalar 150000) [150000] AutoOn 0 150000 0 Real_order);
    [repeat constructor..|].
  left. intros i x Hi.
  destruct i as [|[|[|i]]]; [..|cbn in Hi; lia];
    intros [= <-]; apply real_ltb_intro; lra.
Defined.

(** The worked column on doubles, with the mode on [AutoGrid]: once
    with an axis constructor that returns, once with one that raises. *)
Lemma autobounds_restored_witness :
  let r := linearInterpolation Sample.createAxis Sample.A Sample.Idx
             (Scalar (F64.of_Z 75000)) AutoGrid in
  (∃ v, r.1 = Ok v
        ∧ r.2 = AutoGrid
        ∧ Sample.createAxis AutoOff [F64.of_Z 75000] = Ok (var_plev v))
  ∧ linearInterpolation Sample.failingAxis Sample.A Sample.Idx
                        (Scalar (F64.of_Z 75000)) AutoGrid
    = (Raise CDMSError, AutoOff).
Proof.
  intros r. split.
  - eexists. split; [vm_compute; reflexivity|].
    apply (proj1 (proj2 (proj1
             (autobounds_restored (H0:=F64.log_of (λ x, x))
                Sample.createAxis Sample.A Sample.Idx
                (Scalar (F64.of_Z 75000)) AutoGrid)))).
    vm_compute; reflexivity.
  - apply (proj2 (proj2 (proj1
             (autobounds_restored (H0:=F64.log_of (λ x, x))
                Sample.failingAxis Sample.A Sample.Idx
                (Scalar (F64.of_Z 75000)) AutoGrid))) 1%nat CDMSError);
      [repeat constructor|repeat constructor|cbn; lia|cbn; lia|reflexivity].
Defined.

(** A field of two columns against coordinates of one column, a field of
    two columns against coordinates of three, and a field of one column
    against coordinates of two. *)
Lemma shape_mismatch_raises_witness :
  let A2 := [[Some 1; Some 1]; [Some 2; Some 2]; [Some 3; Some 3]] in
  let Idx2 := [[Some 20000; Some 30000]; [Some 50000; Some 60000];
               [Some 100000; Some 110000]] in
  let Idx3 := [[Some 20000; Some 30000; Some 40000];
               [Some 50000; Some 60000; Some 70000];
               [Some 100000; Some 110000; Some 120000]] in
  (linearInterpolation Sample.createAxis A2 Sample.IdxR (Scalar 75000) AutoOn
   = (Raise CDMSError, AutoOn)
   ∧ logLinearInterpolation Sample.createAxis A2 Sample.IdxR (Scalar 75000)
                            AutoOn
     = (Raise CDMSError, AutoOn))
  ∧ (linearInterpolation Sample.createAxis A2 Idx3 (Scalar 75000) AutoOn
     = (Raise ValueError, AutoOn)
     ∧ logLinearInterpolation Sample.createAxis A2 Idx3 (Scalar 75000) AutoOn
       = (Raise ValueError, AutoOn))
  ∧ ((∃ t, level_loop linear_formula Sample.AR Idx2 3 2 1 [75000]
                      [[Some 0; Some 0]] = Ok t)
     ∧ linearInterpolation Sample.createAxis Sample.AR Idx2 (Scalar 75000)
                           AutoOn
       = (Raise CDMSError, AutoOn)
     ∧ logLinearInterpolation Sample.createAxis Sample.AR Idx2 (Scalar 75000)
                              AutoOn
       = (Raise CDMSError, AutoOn)).
Proof.
  intros A2 Idx2 Idx3. split_and!.
  - destruct (shape_mismatch_raises Sample.createAxis A2 Sample.IdxR 2 1
                (Scalar 75000) AutoOn) as (_ & Hscan & _);
      [repeat constructor|repeat constructor|lia|cbn; lia|cbn; lia|].
    destruct Hscan as [_ Hone]; [cbn; lia..|]. by apply Hone.
  - destruct (shape_mismatch_raises Sample.createAxis A2 Sample.IdxR 2 1
                (Scalar 75000) AutoOn) as (_ & Hscan & _);
      [repeat constructor|repeat constructor|lia|cbn; lia|cbn; lia|].
    destruct Hscan as [_ Hone]; [cbn; lia..|]. by apply Hone.
  - destruct (shape_mismatch_raises Sample.createAxis A2 Idx3 2 3
                (Scalar 75000) AutoOn) as (_ & Hscan & _);
      [repeat constructor|repeat constructor|lia|cbn; lia|cbn; lia|].
    destruct Hscan as [Hnone _]; [cbn; lia..|]. apply Hnone; lia.
  - destruct (shape_mismatch_raises Sample.createAxis A2 Idx3 2 3
                (Scalar 75000) AutoOn) as (_ & Hscan & _);
      [repeat constructor|repeat constructor|lia|cbn; lia|cbn; lia|].
    destruct Hscan as [Hnone _]; [cbn; lia..|]. apply Hnone; lia.
  - destruct (shape_mismatch_raises Sample.createAxis Sample.AR Idx2 1 2
                (Scalar 75000) AutoOn) as (_ & _ & Hlate);
      [repeat constructor|repeat constructor|lia|cbn; lia|cbn; lia|].
    destruct Hlate as (Hloop & _); [done|cbn; lia|].
    eexists. exact Hloop.
  - destruct (shape_mismatch_raises Sample.createAxis Sample.AR Idx2 1 2
                (Scalar 75000) AutoOn) as (_ & _ & Hlate);
      [repeat constructor|repeat constructor|lia|cbn; lia|cbn; lia|].
    destruct Hlate as (_ & _ & Hlin & _); [done|cbn; lia|]. exact Hlin.
  - destruct (shape_mismatch_raises Sample.createAxis Sample.AR Idx2 1 2
                (Scalar 75000) AutoOn) as (_ & _ & Hlate);
      [repeat constructor|repeat constructor|lia|cbn; lia|cbn; lia|].
    destruct Hlate as (_ & _ & _ & Hlog); [done|cbn; lia|]. exact Hlog.
Defined.

Lemma round_trip_exact_witness :
  (∃ s, bracket_search Sample.AR Sample.IdxR 3 1 50000 = Ok s
        ∧ Ieq s !! 0%nat = Some (Some 2))
  ∧ output_cell (linearInterpolation Sample.createAxis Sample.AR Sample.IdxR
                   (Sequence [20000; 50000; 100000]) AutoOn) 1 0
    = Some (Some 2)
  ∧ output_cell (logLinearInterpolation Sample.createAxis Sample.AR
                   Sample.IdxR (Sequence [20000; 50000; 100000]) AutoOn) 1 0
    = Some (Some 2).
Proof.
  change (Some 2) with (Some (astype_float32 (F:=R) 2)) at 2 3.
  apply (round_trip_exact Sample.createAxis Sample.AR Sample.IdxR 1
           [20000; 50000; 100000] [20000; 50000; 100000] AutoOn 0 1
           50000 2);
    [repeat constructor..| | | | | |].
  - intros j y. destruct j as [|[|[|j]]]; intros [= <-]; reflexivity.
  - lia.
  - reflexivity.
  - apply real_eqb_true. reflexivity.
  - intros j y H1. destruct j as [|[|[|j]]]; [lia|lia| |discriminate].
    intros [= <-]. apply real_eqb_false. lra.
  - reflexivity.
Defined.

Lemma output_is_float32_witness :
  ∃ y : R, 2.5 = astype_float32 y.
Proof.
  apply (proj1 (output_is_float32 Sample.createAxis Sample.AR Sample.IdxR
                  (Scalar 75000) AutoOn 0 0 2.5)).
  apply worked_real_linear.
Defined.

End Witnesses.

(** * Further properties of the code *)

(** ** The interpolated value *)

Section Formulas.
Context {F : Type} `{Num F} `{Log F}.
Variable createAxis : autobounds → list F → result (list F).
Implicit Types (A Idx : list (list (option F))) (lev : F).
Implicit Types (I Fld : nat → option F).

(** The state of a column after the scan, when its last bracket is at
    [i] and no scanned level carries [lev]. *)
Lemma column_search_bracketed lev I Fld nsigma i hi lo :
  feq (fmul neg_one one) neg_one = true →
  1 ≤ i → i < nsigma →
  I i = Some hi → I (i - 1) = Some lo →
  fge hi lev = true → fle lo lev = true →
  (∀ j, i < j → j < nsigma → brackets lev I j = Some false) →
  (∀ j, 1 ≤ j → j < nsigma → matches lev I j ≠ Some true) →
  column_search lev I Fld nsigma
  = {| cIabv := Some hi; cAabv := Fld i; cIbel := Some lo;
       cAbel := Fld (i - 1); cIeq := None |}.
Proof.
  intros Hsent H1 Hn Hhi Hlo Hge Hle Hlater Hno.
  pose proof (column_search_no_match lev I Fld nsigma Hsent Hno) as Heq.
  destruct (column_search_last_bracket lev I Fld nsigma i)
    as (HIa & HAa & HIb & HAb); [done..|by eapply brackets_true|done|].
  destruct (column_search lev I Fld nsigma) as [a b c d e]. cbn in *.
  by rewrite HIa, HAa, HIb, HAb, Heq, Hhi, Hlo.
Qed.



(** X9.  Missing field values are not interpolated across: when a field
    value of the last bracket is masked and no scanned level equals
    [lev], the output cell is masked under both formulas. *)
Theorem masked_field_masked A Idx sh2 levels lvl g ilev lev c i hi lo :
  feq (fmul neg_one one) neg_one = true →
  has_columns sh2 Idx → has_columns sh2 A → length Idx ≤ length A →
  createAxis AutoOff (levels_prologue levels).2 = Ok lvl →
  (levels_prologue levels).2 !! ilev = Some lev → c < sh2 →
  let I := λ j, cell_at Idx j c in
  let Fld := λ j, cell_at A j c in
  1 ≤ i → i < length Idx →
  I i = Some hi → I (i - 1) = Some lo →
  fge hi lev = true → fle lo lev = true →
  (∀ j, i < j → j < length Idx → brackets lev I j = Some false) →
  (∀ j, 1 ≤ j → j < length Idx → matches lev I j ≠ Some true) →
  Fld i = None ∨ Fld (i - 1) = None →
  output_cell (linearInterpolation createAxis A Idx levels g) ilev c
  = Some None
  ∧ output_cell (logLinearInterpolation createAxis A Idx levels g) ilev c
    = Some None.
Proof.
  intros Hsent HI HA Hlen Hax Hlev Hc I Fld H1 Hn Hhi Hlo Hge Hle Hlater Hno
    Hmask.
  destruct (entry_points_cells createAxis A Idx sh2 levels lvl g ilev lev c)
    as [-> ->]; [done|done|lia|done..|].
  fold I Fld. unfold column_out.
  rewrite (column_search_bracketed lev I Fld (length Idx) i hi lo) by done.
  unfold linear_cell, loglinear_cell, cell_add, cell_mul, cell_sub. cbn.
  destruct Hmask as [-> | ->]; cbn.
  - by destruct (cell_div _ _), (cell_div _ _), (Fld (i - 1)).
  - by destruct (cell_div _ _), (cell_div _ _), (Fld i).
Qed.

(** X10.  A masked coordinate at the bottom level of a column masks the
    column at every target level, under both formulas. *)
Theorem masked_bottom_coordinate A Idx sh2 levels lvl g ilev lev c :
  has_columns sh2 Idx → has_columns sh2 A → length Idx ≤ length A →
  createAxis AutoOff (levels_prologue levels).2 = Ok lvl →
  (levels_prologue levels).2 !! ilev = Some lev → c < sh2 →
  2 ≤ length Idx →
  cell_at Idx (length Idx - 1) c = None →
  output_cell (linearInterpolation createAxis A Idx levels g) ilev c
  = Some None
  ∧ output_cell (logLinearInterpolation createAxis A Idx levels g) ilev c
    = Some None.
Proof.
  intros HI HA Hlen Hax Hlev Hc Hn Hbot.
  destruct (entry_points_cells createAxis A Idx sh2 levels lvl g ilev lev c)
    as [-> ->]; [done|done|lia|done..|].
  set (I := λ j, cell_at Idx j c). set (Fld := λ j, cell_at A j c).
  assert (Hs : ∃ s, column_search lev I Fld (length Idx)
                    = column_step lev I Fld s (length Idx - 1)).
  { unfold column_search.
    rewrite (scan_indices_split (length Idx) (length Idx - 1)) by lia.
    rewrite fold_left_app.
    replace (length Idx - 1 - (length Idx - 1)) with 0 by lia.
    by eexists. }
  destruct Hs as [s Hs]. unfold column_out. rewrite Hs.
  change (I (length Idx - 1) = None) in Hbot.
  unfold column_step, brackets, matches. rewrite Hbot. cbn.
  split; f_equal.
Qed.

End Formulas.

(** ** Columns, levels and shapes *)

Section Structure.
Context {F : Type} `{Num F} `{Log F}.
Variable createAxis : autobounds → list F → result (list F).
Implicit Types (A Idx : list (list (option F))) (lev : F).
Implicit Types (I Fld : nat → option F).

Lemma increasing_chain I nsigma j k :
  increasing I nsigma → NumStrict → j < k → k < nsigma →
  ∃ x y, I j = Some x ∧ I k = Some y ∧ flt x y = true.
Proof.
  intros Hinc Hstr Hjk Hk. induction k as [|k IH]; [lia|].
  destruct (Hinc k Hk) as (x & y & Hx & Hy & Hxy).
  destruct (decide (j = k)) as [->|Hne]; [by exists x, y|].
  destruct IH as (x0 & x' & Hx0 & Hx' & Hlt); [lia..|].
  exists x0, y. split_and!; [done..|].
  rewrite Hx in Hx'. injection Hx' as <-.
  by eapply (flt_trans Hstr).
Qed.

(** X3.  In a column whose valid coordinates go up with the level, a
    target level strictly between two adjacent coordinates has one
    bracket only: the scan records that pair with its field values, and
    [Ieq] stays masked. *)
Theorem increasing_column_bracket A Idx sh2 lev c i lo hi :
  NumOrder → NumStrict →
  has_columns sh2 Idx → has_columns sh2 A → length Idx ≤ length A →
  c < sh2 →
  let I := λ j, cell_at Idx j c in
  let Fld := λ j, cell_at A j c in
  increasing I (length Idx) →
  1 ≤ i → i < length Idx →
  I (i - 1) = Some lo → I i = Some hi →
  flt lo lev = true → flt lev hi = true →
  ∃ s, bracket_search A Idx (length Idx) sh2 lev = Ok s
    ∧ Iabv s !! c = Some (Some hi) ∧ Ibel s !! c = Some (Some lo)
    ∧ Aabv s !! c = Some (Fld i) ∧ Abel s !! c = Some (Fld (i - 1))
    ∧ Ieq s !! c = Some None.
Proof.
  intros Hord Hstr HI HA Hlen Hc I Fld Hinc H1 Hn Hlo Hhi Hlt1 Hlt2.
  assert (Hup : ∀ j y, i ≤ j → j < length Idx → I j = Some y →
                       flt lev y = true).
  { intros j y Hij Hj Hy. destruct (decide (j = i)) as [->|Hne].
    - rewrite Hhi in Hy. by injection Hy as <-.
    - destruct (increasing_chain I (length Idx) i j)
        as (x & y' & Hx & Hy' & Hxy); [done|done|lia|done|].
      rewrite Hhi in Hx. injection Hx as <-.
      rewrite Hy in Hy'. injection Hy' as <-.
      by eapply (flt_trans Hstr). }
  assert (Hdown : ∀ j y, j < i → I j = Some y → flt y lev = true).
  { intros j y Hji Hy. destruct (decide (j = i - 1)) as [->|Hne].
    - rewrite Hlo in Hy. by injection Hy as <-.
    - destruct (increasing_chain I (length Idx) j (i - 1))
        as (y' & x & Hy' & Hx & Hxy); [done|done|lia|lia|].
      rewrite Hlo in Hx. injection Hx as <-.
      rewrite Hy in Hy'. injection Hy' as <-.
      by eapply (flt_trans Hstr). }
  assert (Hvalid : ∀ j, j < length Idx → ∃ y, I j = Some y).
  { intros j Hj. destruct (decide (S j < length Idx)) as [HS|HS].
    - destruct (Hinc j HS) as (x & _ & Hx & _). by exists x.
    - destruct j as [|j]; [destruct i; [lia|]; assert (i = 0) as -> by lia;
        by exists hi|].
      destruct (Hinc j Hj) as (_ & y & _ & Hy & _). by exists y. }
  eexists. split; [by apply bracket_search_pack|].
  unfold pack. cbn [Iabv Aabv Ibel Abel Ieq].
  rewrite !list_lookup_fmap, lookup_seq_lt by done. cbn. fold I Fld.
  rewrite (column_search_bracketed lev I Fld (length Idx) i hi lo);
    [done|apply (sentinel_feq Hord)|done..| | | |].
  - by apply (flt_fge Hstr).
  - by apply (flt_fle Hstr).
  - intros j Hij Hj. unfold brackets.
    destruct (Hvalid j Hj) as [y ->].
    destruct (Hvalid (j - 1)) as [x Hx]; [lia|]. rewrite Hx. cbn.
    rewrite (flt_not_fle Hord lev x); [by rewrite andb_false_r|].
    apply (Hup (j - 1)); [lia|lia|done].
  - intros j Hj1 Hj. unfold matches.
    destruct (Hvalid j Hj) as [y Hy]. rewrite Hy. cbn.
    destruct (decide (j < i)).
    + rewrite (flt_not_feq_l Hord y lev); [done|]. by eapply Hdown.
    + rewrite (flt_not_feq_r Hord lev y); [done|].
      apply (Hup j); [lia|done..].
Qed.

Lemma column_search_ext lev I I' Fld Fld' nsigma :
  (∀ j, I j = I' j) → (∀ j, Fld j = Fld' j) →
  column_search lev I Fld nsigma = column_search lev I' Fld' nsigma.
Proof.
  intros HI HF. unfold column_search.
  generalize (column_init (F:=F)). induction (seq 1 (nsigma - 1)) as [|j l IH];
    intros s; [done|].
  cbn. rewrite IH. f_equal.
  unfold column_step, brackets, matches. by rewrite !HI, !HF.
Qed.

(** X4.  An output cell depends on its own column and its own level
    only: two calls whose arrays agree on a column, cell by cell, and
    whose levels agree at a position return the same cell there,
    whatever the other columns and levels hold. *)
Theorem column_locality A Idx sh2 levels lvl ilev c
    A' Idx' sh2' levels' lvl' ilev' c' g g' lev :
  has_columns sh2 Idx → has_columns sh2 A →
  0 < length Idx → length Idx ≤ length A →
  createAxis AutoOff (levels_prologue levels).2 = Ok lvl →
  has_columns sh2' Idx' → has_columns sh2' A' →
  length Idx' ≤ length A' →
  createAxis AutoOff (levels_prologue levels').2 = Ok lvl' →
  c < sh2 → c' < sh2' →
  (levels_prologue levels).2 !! ilev = Some lev →
  (levels_prologue levels').2 !! ilev' = Some lev →
  length Idx = length Idx' →
  (∀ j, cell_at Idx j c = cell_at Idx' j c') →
  (∀ j, cell_at A j c = cell_at A' j c') →
  output_cell (linearInterpolation createAxis A Idx levels g) ilev c
  = output_cell (linearInterpolation createAxis A' Idx' levels' g') ilev' c'
  ∧ output_cell (logLinearInterpolation createAxis A Idx levels g) ilev c
    = output_cell (logLinearInterpolation createAxis A' Idx' levels' g')
                  ilev' c'.
Proof.
  intros HI HA Hpos Hlen Hax HI' HA' Hlen' Hax' Hc Hc' Hlev Hlev' Hn
    HcolI HcolA.
  destruct (entry_points_cells createAxis A Idx sh2 levels lvl g ilev lev c)
    as [-> ->]; [done..|].
  destruct (entry_points_cells createAxis A' Idx' sh2' levels' lvl' g' ilev'
              lev c') as [-> ->]; [done|done|lia|done..|].
  unfold column_out. rewrite <- Hn.
  by rewrite (column_search_ext lev _ (λ j, cell_at Idx' j c')
                _ (λ j, cell_at A' j c') (length Idx)).
Qed.

Lemma broadcast_to_length {X} n (r r' : list X) :
  broadcast_to n r = Ok r' → length r' = n.
Proof.
  unfold broadcast_to. destruct (decide _); [by intros [= <-]|].
  destruct r as [|a [|]]; [done| |done].
  intros [= <-]. apply length_replicate.
Qed.

Lemma level_loop_shape formula A Idx nsigma sh2 levels t n : ∀ t',
  level_loop formula A Idx nsigma sh2 n levels t = Ok t' →
  ∀ i r, i < n → t' !! i = Some r → length r = sh2.
Proof.
  unfold level_loop. induction n as [|n IH]; intros t'.
  - intros _ i r Hi. lia.
  - rewrite seq_S, foldM_app.
    destruct (foldM _ (seq 0 n) t) as [t1|]; [|done].
    pose proof (IH t1 eq_refl) as Hrows. cbn.
    destruct (levels !! n) as [lev|]; [cbn|done].
    destruct (level_slice _ _ _ _ _ _) as [r|]; [cbn|done].
    unfold setitem.
    destruct (broadcast_to sh2 r) as [r'|] eqn:Hr'; [cbn|done].
    intros [= <-] i r0 Hi. destruct (decide (i = n)) as [->|Hne].
    + intros Hl. apply list_lookup_insert_Some in Hl as [(_ & <- & _)|[? _]];
        [|done].
      by eapply broadcast_to_length.
    + rewrite list_lookup_insert_ne by done. apply Hrows. lia.
Qed.

(** X5.  Whenever an entry point returns, the variable it returns has
    one slice per target level, and every slice has as many cells as a
    slice of [Idx]: the result has the shape of [Idx] with the vertical
    axis replaced by the levels. *)
Theorem output_shape A Idx levels g :
  (∀ v, (linearInterpolation createAxis A Idx levels g).1 = Ok v →
        length (var_data v) = (levels_prologue levels).1
        ∧ has_columns (ncols Idx) (var_data v))
  ∧ (∀ v, (logLinearInterpolation createAxis A Idx levels g).1 = Ok v →
          length (var_data v) = (levels_prologue levels).1
          ∧ has_columns (ncols Idx) (var_data v)).
Proof.
  assert (Hany : ∀ formula v,
    (interpolation createAxis formula A Idx levels g).1 = Ok v →
    length (var_data v) = (levels_prologue levels).1
    ∧ has_columns (ncols Idx) (var_data v)).
  { intros formula v. unfold interpolation.
    destruct (levels_prologue levels) as [nlev levels'].
    unfold mbind, M_bind, lift, getitem.
    destruct Idx as [|Idx0 Idx']; [done|]. cbn [lookup list_lookup].
    destruct (level_loop _ _ _ _ _ _ _ _) as [t|] eqn:Ht; [|done].
    cbn. destruct (createAxis AutoOff levels') as [lvl|]; [|done].
    cbn. destruct (setAxisList _ _); [cbn|done].
    intros [= <-]. cbn.
    pose proof (level_loop_cast _ _ _ _ _ _ _ _ _ Ht) as [Hlen _].
    rewrite length_replicate in Hlen. split; [done|].
    apply Forall_lookup. intros i r Hr.
    eapply level_loop_shape; [exact Ht| |exact Hr].
    apply lookup_lt_Some in Hr. lia. }
  split; apply Hany.
Qed.

(** X6.  Levels are treated one by one: on arrays of one shape,
    interpolating onto the concatenation of two lists of levels returns
    the slices for the first list followed by the slices for the
    second. *)
Theorem levels_concatenate A Idx sh2 l1 l2 lvl1 lvl2 lvl12 g :
  has_columns sh2 Idx → has_columns sh2 A →
  0 < length Idx → length Idx ≤ length A →
  createAxis AutoOff l1 = Ok lvl1 →
  createAxis AutoOff l2 = Ok lvl2 →
  createAxis AutoOff (l1 ++ l2) = Ok lvl12 →
  (∃ v1 v2 v12,
     linearInterpolation createAxis A Idx (Sequence l1) g = (Ok v1, g)
     ∧ linearInterpolation createAxis A Idx (Sequence l2) g = (Ok v2, g)
     ∧ linearInterpolation createAxis A Idx (Sequence (l1 ++ l2)) g
       = (Ok v12, g)
     ∧ var_data v12 = var_data v1 ++ var_data v2)
  ∧ (∃ v1 v2 v12,
       logLinearInterpolation createAxis A Idx (Sequence l1) g = (Ok v1, g)
       ∧ logLinearInterpolation createAxis A Idx (Sequence l2) g = (Ok v2, g)
       ∧ logLinearInterpolation createAxis A Idx (Sequence (l1 ++ l2)) g
         = (Ok v12, g)
       ∧ var_data v12 = var_data v1 ++ var_data v2).
Proof.
  intros HI HA Hpos Hlen H1 H2 H12.
  split; do 3 eexists; (split_and!;
    [by eapply (interpolation_spec createAxis _ _ A Idx sh2 (Sequence _));
       [apply linear_formula_cellwise || apply loglinear_formula_cellwise|..]
       ..|]);
    cbn; by rewrite fmap_app.
Qed.

(** X7.  With an empty list of levels the field values are never read:
    the call returns a variable without slices as soon as [Idx] has a
    level and [A] has the columns of [Idx], however few levels [A]
    has. *)
Theorem empty_levels A Idx lvl g :
  0 < length Idx → ncols A = ncols Idx →
  createAxis AutoOff [] = Ok lvl →
  linearInterpolation createAxis A Idx (Sequence []) g
  = (Ok {| var_data := []; var_plev := lvl |}, g)
  ∧ logLinearInterpolation createAxis A Idx (Sequence []) g
    = (Ok {| var_data := []; var_plev := lvl |}, g).
Proof.
  intros Hpos Hcols Hax.
  destruct Idx as [|Idx0 Idx']; [cbn in Hpos; lia|]. cbn in Hcols.
  unfold linearInterpolation, logLinearInterpolation, interpolation.
  cbn. unfold mbind, M_bind, lift. cbn. rewrite Hax. cbn.
  unfold setAxisList. by rewrite decide_True.
Qed.

End Structure.

(** ** A field with too few levels *)

Section ShortField.
Context {F : Type} `{Num F} `{Log F}.
Variable createAxis : autobounds → list F → result (list F).
Implicit Types (A Idx : list (list (option F))) (lev : F).

Lemma bracket_step_short A Idx sh2 lev f k :
  has_columns sh2 Idx → 1 ≤ k → k < length Idx → length A ≤ k →
  bracket_step A Idx lev (pack (seq 0 sh2) f) k = Raise IndexError.
Proof.
  intros HI H1 Hk HA. unfold bracket_step.
  rewrite !(getitem_cell_at Idx sh2) by (done || lia). cbn.
  unfold ma_logical_and, ma_greater_equal, ma_less_equal.
  rewrite <- !list_fmap_compose, ma_binary_fmap. cbn.
  rewrite !MV2_where_fmap. cbn.
  unfold getitem. by rewrite (proj2 (lookup_ge_None A k)).
Qed.

Lemma bracket_search_short A Idx sh2 lev :
  has_columns sh2 Idx → has_columns sh2 A →
  length A < length Idx → 2 ≤ length Idx →
  bracket_search A Idx (length Idx) sh2 lev = Raise IndexError.
Proof.
  intros HI HA Hlt Hn. unfold bracket_search.
  set (k := Nat.max 1 (length A)).
  rewrite (scan_indices_split (length Idx) k) by lia.
  rewrite foldM_app, bracket_init_pack.
  rewrite (bracket_foldM_pack A Idx sh2) by
    (done || (apply Forall_forall; intros i Hi%elem_of_seq; lia)).
  cbn. by rewrite (bracket_step_short A Idx sh2) by (done || lia).
Qed.

Lemma level_slice_short formula A Idx sh2 lev :
  has_columns sh2 Idx → has_columns sh2 A →
  length A < length Idx → 2 ≤ length Idx →
  level_slice formula A Idx (length Idx) sh2 lev = Raise IndexError.
Proof.
  intros HI HA Hlt Hn. unfold level_slice.
  by rewrite (bracket_search_short A Idx sh2).
Qed.

(** X8.  A field with fewer levels than the coordinate is fatal: with at
    least two levels in [Idx] and at least one target level, both entry
    points raise an index error at [A[i]], before the auto-bounds mode is
    touched. *)
Theorem short_field_raises A Idx sh2 levels g :
  has_columns sh2 Idx → has_columns sh2 A →
  length A < length Idx → 2 ≤ length Idx →
  0 < (levels_prologue levels).1 →
  linearInterpolation createAxis A Idx levels g = (Raise IndexError, g)
  ∧ logLinearInterpolation createAxis A Idx levels g
    = (Raise IndexError, g).
Proof.
  intros HI HA Hlt Hn Hnlev.
  assert (Hany : ∀ formula,
    interpolation createAxis formula A Idx levels g = (Raise IndexError, g)).
  { intros formula. unfold interpolation.
    pose proof (levels_prologue_length levels) as Hl.
    destruct (levels_prologue levels) as [nlev levels']. cbn in Hl, Hnlev.
    unfold mbind, M_bind, lift.
    rewrite (getitem_cell_at Idx sh2) by (done || lia).
    rewrite length_fmap, length_seq.
    destruct nlev as [|nlev]; [lia|].
    destruct levels' as [|lev levels']; [done|].
    unfold level_loop. cbn -[level_slice].
    by rewrite (level_slice_short formula A Idx sh2). }
  split; apply Hany.
Qed.

End ShortField.

(** ** The order of doubles and of reals is strict *)

Section StrictOrders.

Lemma SFltb_trans (x y z : spec_float) :
  SFltb x y = true → SFltb y z = true → SFltb x z = true.
Proof.
  unfold SFltb.
  destruct x as [sx|sx| |sx mx ex], y as [sy|sy| |sy my ey],
    z as [sz|sz| |sz mz ez]; cbn;
    try done; try (by destruct sx); try (by destruct sy);
    try (by destruct sz); try (by destruct sx, sy);
    try (by destruct sy, sz); try (by destruct sx, sz);
    try (by destruct sx, sy, sz).
  destruct sx, sy, sz; cbn; try done;
    change (Pos.compare_cont Eq mx my) with (mx ?= my)%positive;
    change (Pos.compare_cont Eq my mz) with (my ?= mz)%positive;
    change (Pos.compare_cont Eq mx mz) with (mx ?= mz)%positive;
    destruct (Z.compare_spec ex ey), (Z.compare_spec ey ez),
      (Z.compare_spec ex ez); try lia; cbn; try done;
    destruct (Pos.compare_spec mx my), (Pos.compare_spec my mz),
      (Pos.compare_spec mx mz); cbn; try done; lia.
Qed.

Lemma F64_strict : NumStrict (F:=F64.t).
Proof.
  split; cbn.
  - apply SFltb_trans.
  - intros x y. unfold SFltb, SFleb. by destruct (SFcompare x y) as [[]|].
  - intros x y. unfold SFltb, SFleb. by destruct (SFcompare x y) as [[]|].
Qed.

Lemma Real_strict : NumStrict (F:=R).
Proof.
  split; cbn.
  - intros x y z Hxy%real_ltb_true Hyz%real_ltb_true.
    unfold Real.ltb. destruct (Rlt_dec x z); [done|lra].
  - intros x y Hxy%real_ltb_true. apply real_leb_true. lra.
  - intros x y Hxy%real_ltb_true. apply real_geb_true. lra.
Qed.

End StrictOrders.

(** ** The domain of [divide] on real numbers *)

Section RealFormulas.
Local Open Scope R_scope.


End RealFormulas.

(** ** Pressure on hybrid levels *)

Section PressureLemmas.
Context {F : Type} `{Num F} `{Log F}.
Variable createAxis : autobounds → list F → result (list F).
Implicit Types (ps A B : list (option F)) (Po : F).

Lemma pressure_length ps A B Po :
  length A = length B →
  length (reconstructPressureFromHybrid ps A B Po) = length A.
Proof.
  intros Hl. unfold reconstructPressureFromHybrid.
  rewrite length_zip_with. lia.
Qed.

Lemma pressure_columns ps A B Po :
  has_columns (length ps) (reconstructPressureFromHybrid ps A B Po).
Proof.
  unfold has_columns, reconstructPressureFromHybrid.
  apply Forall_lookup. intros k r Hr.
  apply lookup_zip_with_Some in Hr as (a & b & -> & _ & _).
  apply length_fmap.
Qed.

Lemma pressure_cell_at ps A B Po k c a b s :
  A !! k = Some a → B !! k = Some b → ps !! c = Some s →
  cell_at (reconstructPressureFromHybrid ps A B Po) k c
  = match s, a, b with
    | Some s, Some a, Some b => Some (fadd (fmul s b) (fmul a Po))
    | _, _, _ => None
    end.
Proof.
  intros Ha Hb Hs. unfold cell_at, reconstructPressureFromHybrid.
  rewrite lookup_zip_with, Ha, Hb. cbn.
  rewrite list_lookup_fmap, Hs. cbn. by destruct s, a, b.
Qed.

Lemma column_out_bottom_masked fcell lev (I Fld : nat → option F) nsigma :
  (∀ s, unbracketed s → fcell lev s = None) →
  2 ≤ nsigma → I (nsigma - 1) = None →
  column_out fcell lev I Fld nsigma = None.
Proof.
  intros Hf Hn Hbot. unfold column_out, column_search.
  rewrite (scan_indices_split nsigma (nsigma - 1)) by lia.
  rewrite fold_left_app.
  replace (nsigma - 1 - (nsigma - 1)) with 0 by lia. cbn [seq fold_left].
  assert (Hs : ∀ s, column_step lev I Fld s (nsigma - 1)
                    = {| cIabv := None; cAabv := None; cIbel := None;
                         cAbel := None; cIeq := None |}).
  { intros s. unfold column_step, brackets, matches. by rewrite Hbot. }
  rewrite Hs. cbn. rewrite Hf; [reflexivity|by left].
Qed.

(** X13.  The pressure field of [reconstructPressureFromHybrid] is a
    coordinate the interpolation functions accept: with a field of its
    shape, both entry points return; and a column whose surface pressure
    is masked comes out masked at every target level. *)
Theorem pressure_feeds_interpolation ps A B Po Fld levels lvl g :
  length A = length B → 2 ≤ length A →
  has_columns (length ps) Fld → length A ≤ length Fld →
  createAxis AutoOff (levels_prologue levels).2 = Ok lvl →
  let P := reconstructPressureFromHybrid ps A B Po in
  (∃ v, linearInterpolation createAxis Fld P levels g = (Ok v, g))
  ∧ (∃ v, logLinearInterpolation createAxis Fld P levels g = (Ok v, g))
  ∧ ∀ ilev lev c,
      (levels_prologue levels).2 !! ilev = Some lev →
      ps !! c = Some None →
      output_cell (linearInterpolation createAxis Fld P levels g) ilev c
      = Some None
      ∧ output_cell (logLinearInterpolation createAxis Fld P levels g) ilev c
        = Some None.
Proof.
  intros Hl Hn HF HlenF Hax P.
  pose proof (pressure_length ps A B Po Hl) as HlenP.
  pose proof (pressure_columns ps A B Po) as HcolP. fold P in HlenP, HcolP.
  split_and!.
  - eexists.
    by apply (interpolation_spec createAxis _ linear_cell Fld P (length ps));
      [apply linear_formula_cellwise|..|lia|lia|].
  - eexists.
    by apply (interpolation_spec createAxis _ loglinear_cell Fld P
                (length ps));
      [apply loglinear_formula_cellwise|..|lia|lia|].
  - intros ilev lev c Hlev Hps.
    assert (Hc : c < length ps) by (by eapply lookup_lt_Some).
    destruct (entry_points_cells createAxis Fld P (length ps) levels lvl g
                ilev lev c) as [-> ->]; [done|done|lia|lia|done..|].
    assert (Hbot : cell_at P (length P - 1) c = None).
    { destruct (A !! (length P - 1)) as [a|] eqn:Ha;
        [|apply lookup_ge_None in Ha; lia].
      destruct (B !! (length P - 1)) as [b|] eqn:Hb;
        [|apply lookup_ge_None in Hb; lia].
      unfold P at 1. by rewrite (pressure_cell_at ps A B Po _ c a b None). }
    split; f_equal; apply column_out_bottom_masked; try done; try lia.
    + intros s. apply linear_cell_unbracketed.
    + intros s. apply loglinear_cell_unbracketed.
Qed.

End PressureLemmas.

(** ** Columns the functions are not meant for *)

Section Misuse.
Context {F : Type} `{Num F} `{Log F}.
Variable createAxis : autobounds → list F → result (list F).
Implicit Types (A Idx : list (list (option F))) (lev : F).

(** X14.  Arrays given from bottom to top are not interpolated: in a
    column whose valid coordinates go down with the level no pair of
    levels passes the bracket test, and the output cell is masked under
    both formulas unless a scanned level carries [lev] itself. *)
Theorem decreasing_column_masked A Idx sh2 levels lvl g ilev lev c :
  NumOrder → NumBetween →
  has_columns sh2 Idx → has_columns sh2 A →
  0 < length Idx → length Idx ≤ length A →
  createAxis AutoOff (levels_prologue levels).2 = Ok lvl →
  (levels_prologue levels).2 !! ilev = Some lev → c < sh2 →
  let I := λ j, cell_at Idx j c in
  decreasing I (length Idx) →
  (∀ j, 1 ≤ j → j < length Idx → matches lev I j ≠ Some true) →
  output_cell (linearInterpolation createAxis A Idx levels g) ilev c
  = Some None
  ∧ output_cell (logLinearInterpolation createAxis A Idx levels g) ilev c
    = Some None.
Proof.
  intros Hord Hbet HI HA Hpos Hlen Hax Hlev Hc I Hdec Hno.
  destruct (entry_points_cells createAxis A Idx sh2 levels lvl g ilev lev c)
    as [-> ->]; [done..|].
  fold I.
  assert (Hnb : ∀ j, 1 ≤ j → j < length Idx → brackets lev I j ≠ Some true).
  { intros j H1 Hj. destruct j as [|j]; [lia|].
    destruct (Hdec j Hj) as (x & y & Hx & Hy & Hyx).
    unfold brackets. replace (S j - 1) with j by lia. rewrite Hx, Hy. cbn.
    destruct (fge y lev) eqn:Hge; [|done].
    destruct (fle x lev) eqn:Hle; [|done].
    by rewrite (between_not_flt Hbet y x lev) in Hyx. }
  pose proof (sentinel_feq Hord) as Hsent.
  split; f_equal; apply column_out_masked.
  - intros s. apply linear_cell_unbracketed.
  - by apply column_search_no_bracket.
  - by apply column_search_no_match.
  - intros s. apply loglinear_cell_unbracketed.
  - by apply column_search_no_bracket.
  - by apply column_search_no_match.
Qed.

(** X15.  [logLinearInterpolation] needs a quotient [lev / Pbel] that
    numpy.ma accepts and finds positive: when the division is outside its
    domain (as for a lower coordinate 0), or the quotient is not finite
    or not positive, the output cell of a bracketed column without exact
    match is masked, not an invalid number. *)
Theorem loglinear_domain_masked A Idx sh2 levels lvl g ilev lev c i hi lo :
  feq (fmul neg_one one) neg_one = true →
  has_columns sh2 Idx → has_columns sh2 A → length Idx ≤ length A →
  createAxis AutoOff (levels_prologue levels).2 = Ok lvl →
  (levels_prologue levels).2 !! ilev = Some lev → c < sh2 →
  let I := λ j, cell_at Idx j c in
  1 ≤ i → i < length Idx →
  I i = Some hi → I (i - 1) = Some lo →
  fge hi lev = true → fle lo lev = true →
  (∀ j, i < j → j < length Idx → brackets lev I j = Some false) →
  (∀ j, 1 ≤ j → j < length Idx → matches lev I j ≠ Some true) →
  let r := fdiv (fmul one lev) lo in
  div_domain (fmul one lev) lo = true ∨ isfinite r = false
  ∨ log_domain r = true →
  output_cell (logLinearInterpolation createAxis A Idx levels g) ilev c
  = Some None.
Proof.
  intros Hsent HI HA Hlen Hax Hlev Hc I H1 Hn Hhi Hlo Hge Hle Hlater Hno
    r Hbad.
  destruct (entry_points_cells createAxis A Idx sh2 levels lvl g ilev lev c)
    as [_ ->]; [done|done|lia|done..|].
  fold I. unfold column_out.
  rewrite (column_search_bracketed lev I _ (length Idx) i hi lo) by done.
  f_equal. unfold loglinear_cell, masked_level_cell. cbn.
  assert (Hnum : log_cell (cell_div
            (if feq lo neg_one then None else Some (fmul one lev))
            (Some lo)) = None).
  { destruct (feq lo neg_one); [done|]. cbn. unfold divide_cell. fold r.
    destruct Hbad as [-> | [-> | Hdom]]; [by rewrite orb_true_r|done|].
    destruct (negb (isfinite r) || div_domain (fmul one lev) lo); [done|].
    cbn. rewrite Hdom. by rewrite orb_true_r. }
  by rewrite Hnum.
Qed.

End Misuse.

(** ** Doubles and reals lie between their bounds *)

Section BetweenOrders.

Lemma SFleb_trans (x y z : spec_float) :
  SFleb x y = true → SFleb y z = true → SFleb x z = true.
Proof.
  unfold SFleb.
  destruct x as [sx|sx| |sx mx ex], y as [sy|sy| |sy my ey],
    z as [sz|sz| |sz mz ez]; cbn;
    try done; try (by destruct sx); try (by destruct sy);
    try (by destruct sz); try (by destruct sx, sy);
    try (by destruct sy, sz); try (by destruct sx, sz);
    try (by destruct sx, sy, sz).
  destruct sx, sy, sz; cbn; try done;
    change (Pos.compare_cont Eq mx my) with (mx ?= my)%positive;
    change (Pos.compare_cont Eq my mz) with (my ?= mz)%positive;
    change (Pos.compare_cont Eq mx mz) with (mx ?= mz)%positive;
    destruct (Z.compare_spec ex ey), (Z.compare_spec ey ez),
      (Z.compare_spec ex ez); try lia; cbn; try done;
    destruct (Pos.compare_spec mx my), (Pos.compare_spec my mz),
      (Pos.compare_spec mx mz); cbn; try done; lia.
Qed.

Lemma F64_between : NumBetween (F:=F64.t).
Proof.
  split. cbn. intros x y l Hlx Hyl.
  pose proof (SFleb_trans y l x Hyl Hlx) as Hyx.
  unfold SFleb in Hyx. unfold SFltb. rewrite (SFcompare_swap y x).
  by destruct (SFcompare y x) as [[]|].
Qed.

Lemma Real_between : NumBetween (F:=R).
Proof.
  split. cbn. intros x y l Hlx Hyl.
  unfold Real.geb in Hlx. unfold Real.leb in Hyl. unfold Real.ltb.
  destruct (Rle_dec l x); [|done]. destruct (Rle_dec y l); [|done].
  destruct (Rlt_dec x y); [lra|done].
Qed.

End BetweenOrders.

(** ** The further properties at sample inputs *)

Section MoreWitnesses.
Local Open Scope R_scope.



(** The field value at the bottom level is missing. *)
Lemma masked_field_masked_witness :
  let A := [[Some 1]; [Some 2]; [None]] in
  output_cell (linearInterpolation Sample.createAxis A Sample.IdxR
                 (Scalar 75000) AutoOn) 0 0
  = Some None
  ∧ output_cell (logLinearInterpolation Sample.createAxis A Sample.IdxR
                   (Scalar 75000) AutoOn) 0 0
    = Some None.
Proof.
  intros A.
  apply (masked_field_masked Sample.createAxis A Sample.IdxR 1
           (Scalar 75000) [75000] AutoOn 0 75000 0 2 100000 50000);
    try reflexivity; try (repeat constructor; fail).
  - apply (sentinel_feq Real_order).
  - apply real_geb_true. lra.
  - apply real_leb_true. lra.
  - intros j H1 H2. cbn in H2. lia.
  - intros j H1 H2. cbn in H2.
    assert (j = 1 ∨ j = 2)%nat as [-> | ->] by lia.
    + cbn. rewrite real_eqb_false by lra. discriminate.
    + cbn. rewrite real_eqb_false by lra. discriminate.
Defined.

(** The coordinate at the bottom level is missing. *)
Lemma masked_bottom_coordinate_witness :
  let Idx := [[Some 20000]; [Some 50000]; [None]] in
  output_cell (linearInterpolation Sample.createAxis Sample.AR Idx
                 (Scalar 30000) AutoOn) 0 0
  = Some None
  ∧ output_cell (logLinearInterpolation Sample.createAxis Sample.AR Idx
                   (Scalar 30000) AutoOn) 0 0
    = Some None.
Proof.
  intros Idx.
  apply (masked_bottom_coordinate Sample.createAxis Sample.AR Idx 1
           (Scalar 30000) [30000] AutoOn 0 30000 0);
    try reflexivity; try (repeat constructor; fail).
Defined.

Lemma increasing_column_bracket_witness :
  ∃ s, bracket_search Sample.A Sample.Idx 3 1 (F64.of_Z 75000) = Ok s
    ∧ Iabv s !! 0%nat = Some (Some (F64.of_Z 100000))
    ∧ Ibel s !! 0%nat = Some (Some (F64.of_Z 50000))
    ∧ Aabv s !! 0%nat = Some (Some (F64.of_Z 3))
    ∧ Abel s !! 0%nat = Some (Some (F64.of_Z 2))
    ∧ Ieq s !! 0%nat = Some None.
Proof.
  apply (increasing_column_bracket Sample.A Sample.Idx 1 (F64.of_Z 75000) 0 2
           (F64.of_Z 50000) (F64.of_Z 100000) F64_order F64_strict);
    lazymatch goal with
    | |- has_columns _ _ => repeat constructor
    | |- increasing _ _ => idtac
    | |- @eq _ _ _ => vm_compute; reflexivity
    | |- _ => cbn; lia
    end.
  intros j Hj. cbn in Hj.
  assert (j = 0 ∨ j = 1)%nat as [-> | ->] by lia.
  - exists (F64.of_Z 20000), (F64.of_Z 50000).
    split_and!; [reflexivity|reflexivity|vm_compute; reflexivity].
  - exists (F64.of_Z 50000), (F64.of_Z 100000).
    split_and!; [reflexivity|reflexivity|vm_compute; reflexivity].
Defined.

(** The worked column, alone and as the second column of wider arrays. *)
Lemma column_locality_witness :
  let Idx2 := [[Some 1; Some 20000]; [Some 2; Some 50000];
               [Some 3; Some 100000]] in
  let A2 := [[Some 7; Some 1]; [Some 8; Some 2]; [Some 9; Some 3]] in
  output_cell (linearInterpolation Sample.createAxis A2 Idx2
                 (Sequence [10; 75000]) AutoOn) 1 1
  = output_cell (linearInterpolation Sample.createAxis Sample.AR Sample.IdxR
                   (Scalar 75000) AutoGrid) 0 0
  ∧ output_cell (logLinearInterpolation Sample.createAxis A2 Idx2
                   (Sequence [10; 75000]) AutoOn) 1 1
    = output_cell (logLinearInterpolation Sample.createAxis Sample.AR
                     Sample.IdxR (Scalar 75000) AutoGrid) 0 0.
Proof.
  intros Idx2 A2.
  apply (column_locality Sample.createAxis A2 Idx2 2 (Sequence [10; 75000])
           [10; 75000] 1 1 Sample.AR Sample.IdxR 1 (Scalar 75000) [75000]
           0 0 AutoOn AutoGrid 75000);
    try reflexivity; try (repeat constructor; fail).
  - intros j. destruct j as [|[|[|j]]]; reflexivity.
  - intros j. destruct j as [|[|[|j]]]; reflexivity.
Defined.

Lemma output_shape_witness :
  ∃ v, (linearInterpolation Sample.createAxis Sample.A Sample.Idx
          (Sequence [F64.of_Z 75000; F64.of_Z 50000]) AutoOn).1 = Ok v
       ∧ length (var_data v) = 2%nat ∧ has_columns 1 (var_data v).
Proof.
  eexists. split; [vm_compute; reflexivity|].
  apply (proj1 (output_shape (H0:=F64.log_of (λ x, x)) Sample.createAxis
                  Sample.A Sample.Idx
                  (Sequence [F64.of_Z 75000; F64.of_Z 50000]) AutoOn)).
  vm_compute; reflexivity.
Defined.

Lemma levels_concatenate_witness :
  (∃ v1 v2 v12,
     linearInterpolation Sample.createAxis Sample.AR Sample.IdxR
       (Sequence [75000]) AutoOn = (Ok v1, AutoOn)
     ∧ linearInterpolation Sample.createAxis Sample.AR Sample.IdxR
         (Sequence [50000; 150000]) AutoOn = (Ok v2, AutoOn)
     ∧ linearInterpolation Sample.createAxis Sample.AR Sample.IdxR
         (Sequence ([75000] ++ [50000; 150000])) AutoOn = (Ok v12, AutoOn)
     ∧ var_data v12 = var_data v1 ++ var_data v2)
  ∧ (∃ v1 v2 v12,
       logLinearInterpolation Sample.createAxis Sample.AR Sample.IdxR
         (Sequence [75000]) AutoOn = (Ok v1, AutoOn)
       ∧ logLinearInterpolation Sample.createAxis Sample.AR Sample.IdxR
           (Sequence [50000; 150000]) AutoOn = (Ok v2, AutoOn)
       ∧ logLinearInterpolation Sample.createAxis Sample.AR Sample.IdxR
           (Sequence ([75000] ++ [50000; 150000])) AutoOn = (Ok v12, AutoOn)
       ∧ var_data v12 = var_data v1 ++ var_data v2).
Proof.
  apply (levels_concatenate Sample.createAxis Sample.AR Sample.IdxR 1
           [75000] [50000; 150000] [75000] [50000; 150000]
           ([75000] ++ [50000; 150000]) AutoOn);
    try reflexivity; try (repeat constructor; fail).
Defined.

(** A field of one level against the three levels of the worked column,
    and no target level. *)
Lemma empty_levels_witness :
  linearInterpolation Sample.createAxis [[Some 1]] Sample.IdxR
                      (Sequence []) AutoOn
  = (Ok {| var_data := []; var_plev := [] |}, AutoOn)
  ∧ logLinearInterpolation Sample.createAxis [[Some 1]] Sample.IdxR
                           (Sequence []) AutoOn
    = (Ok {| var_data := []; var_plev := [] |}, AutoOn).
Proof.
  apply (empty_levels Sample.createAxis [[Some 1]] Sample.IdxR [] AutoOn).
  - cbn. lia.
  - reflexivity.
  - reflexivity.
Defined.

(** A field of one level against the three levels of the worked
    column. *)
Lemma short_field_raises_witness :
  linearInterpolation Sample.createAxis [[Some 1]] Sample.IdxR
                      (Scalar 75000) AutoGrid
  = (Raise IndexError, AutoGrid)
  ∧ logLinearInterpolation Sample.createAxis [[Some 1]] Sample.IdxR
                           (Scalar 75000) AutoGrid
    = (Raise IndexError, AutoGrid).
Proof.
  apply (short_field_raises Sample.createAxis [[Some 1]] Sample.IdxR 1
           (Scalar 75000) AutoGrid);
    try (repeat constructor; fail); cbn; lia.
Defined.

(** Two columns of surface pressure, the second one missing, and three
    hybrid levels. *)
Lemma pressure_feeds_interpolation_witness :
  let P := reconstructPressureFromHybrid [Some 100000; None]
             [Some 0.2; Some 0.1; Some 0] [Some 0; Some 0.5; Some 1]
             100000 in
  let Fld := [[Some 1; Some 1]; [Some 2; Some 2]; [Some 3; Some 3]] in
  (∃ v, linearInterpolation Sample.createAxis Fld P (Scalar 75000) AutoOn
        = (Ok v, AutoOn))
  ∧ (∃ v, logLinearInterpolation Sample.createAxis Fld P (Scalar 75000)
                                 AutoOn = (Ok v, AutoOn))
  ∧ output_cell (linearInterpolation Sample.createAxis Fld P
                   (Scalar 75000) AutoOn) 0 1 = Some None
  ∧ output_cell (logLinearInterpolation Sample.createAxis Fld P
                   (Scalar 75000) AutoOn) 0 1 = Some None.
Proof.
  intros P Fld.
  destruct (pressure_feeds_interpolation Sample.createAxis
              [Some 100000; None] [Some 0.2; Some 0.1; Some 0]
              [Some 0; Some 0.5; Some 1] 100000 Fld (Scalar 75000) [75000]
              AutoOn) as (Hlin & Hlog & Hmask);
    [reflexivity|cbn; lia|repeat constructor|cbn; lia|reflexivity|].
  split_and!; [exact Hlin|exact Hlog|..];
    apply (Hmask 0%nat 75000 1%nat eq_refl eq_refl).
Defined.

(** The worked column upside down. *)
Lemma decreasing_column_masked_witness :
  let Idx := [[Some 100000]; [Some 50000]; [Some 20000]] in
  let A := [[Some 3]; [Some 2]; [Some 1]] in
  output_cell (linearInterpolation Sample.createAxis A Idx (Scalar 75000)
                                   AutoOn) 0 0
  = Some None
  ∧ output_cell (logLinearInterpolation Sample.createAxis A Idx
                   (Scalar 75000) AutoOn) 0 0
    = Some None.
Proof.
  intros Idx A.
  apply (decreasing_column_masked Sample.createAxis A Idx 1 (Scalar 75000)
           [75000] AutoOn 0 75000 0 Real_order Real_between);
    try reflexivity; try (repeat constructor; fail).
  - intros j Hj. cbn in Hj.
    assert (j = 0 ∨ j = 1)%nat as [-> | ->] by lia.
    + exists 100000, 50000.
      split_and!; [reflexivity|reflexivity|apply real_ltb_intro; lra].
    + exists 50000, 20000.
      split_and!; [reflexivity|reflexivity|apply real_ltb_intro; lra].
  - intros j H1 H2. cbn in H2.
    assert (j = 1 ∨ j = 2)%nat as [-> | ->] by lia.
    + cbn. rewrite real_eqb_false by lra. discriminate.
    + cbn. rewrite real_eqb_false by lra. discriminate.
Defined.

(** A depth coordinate that starts at 0. *)
Lemma loglinear_domain_masked_witness :
  output_cell (logLinearInterpolation Sample.createAxis
                 [[Some 1]; [Some 2]] [[Some 0]; [Some 10]] (Scalar 5)
                 AutoOn) 0 0
  = Some None.
Proof.
  apply (loglinear_domain_masked Sample.createAxis [[Some 1]; [Some 2]]
           [[Some 0]; [Some 10]] 1 (Scalar 5) [5] AutoOn 0 5 0 1 10 0);
    try reflexivity; try (repeat constructor; fail).
  - apply (sentinel_feq Real_order).
  - apply real_geb_true. lra.
  - apply real_leb_true. lra.
  - intros j H1 H2. cbn in H2. lia.
  - intros j H1 H2. cbn in H2. assert (j = 1)%nat as -> by lia.
    cbn. rewrite real_eqb_false by lra. discriminate.
  - left. cbn. apply real_leb_true. rewrite Rabs_R0.
    apply Rmult_le_pos; [apply Rabs_pos|].
    pose proof real_tiny_pos. lra.
Defined.

End MoreWitnesses.
